(** * django_digest.models: partial-digest synchronisation

    A shallow embedding of [src/django_digest/models.py]: the
    [PartialDigest] table, the process-wide dictionary
    [_postponed_partial_digests], and the functions that stage, persist and
    reconcile partial digests.

    Python sets are [gset string], the dictionary is a [gmap] keyed by the
    stored password hash, the table is a list of rows together with the
    auto-increment counter of its primary key.  Code runs in a small monad
    that threads the state and carries Python exceptions; the database
    backend decides which queries it executes and which it refuses. *)

From stdpp Require Import gmap strings list fin_maps fin_sets.
From Stdlib Require Import ZArith.

Open Scope Z_scope.

(** ** Data model *)

(** The fields of [django.contrib.auth] users that this module and the login
    factories read. *)
Record User := mkUser {
  user_pk : Z;
  username : string;
  email : string;
  password : string
}.

(** [class PartialDigest(models.Model)]: [pk] is Django's implicit
    auto-increment primary key, [user] the foreign key (the user's [pk]). *)
Record PartialDigest := mkPartialDigest {
  pk : Z;
  user : Z;
  login : string;
  partial_digest : string;
  confirmed : bool
}.

#[global] Instance PartialDigest_eq_dec : EqDecision PartialDigest.
Proof. solve_decision. Defined.

(** The table behind [PartialDigest.objects]. *)
Record Table := mkTable {
  rows : list PartialDigest;
  next_pk : Z
}.

(** A staged tuple [(login, partial_digest, confirmed)]. *)
Abbreviation Staged := (string * string * bool)%type.

Record State := mkState {
  PartialDigest_objects : Table;
  _postponed_partial_digests : gmap string (list Staged)
}.

(** What [get_backend('DIGEST_LOGIN_FACTORY', ...)] and
    [get_setting('DIGEST_REALM', DEFAULT_REALM)] return.  The login factory is
    the finite map from attribute names to the methods it defines, so that
    [getattr(login_factory, method_name, None)] is a lookup. *)
Record Settings := mkSettings {
  DIGEST_LOGIN_FACTORY : gmap string (User → list string);
  DIGEST_REALM : string
}.

(** ** The database backend and the monad *)

Inductive query :=
| Select (uid : Z) (flag : option bool)
| Delete (uid : Z)
| Insert (uid : Z) (l d : string) (c : bool)
| Update (row : PartialDigest)
| DeleteRow (row_pk : Z).

(** A backend executes a query ([true]) or raises ([false]); it answers the
    same query the same way throughout. *)
Definition Backend : Type := query → bool.

Definition reliable : Backend := λ _, true.

Inductive exn := KeyError | DatabaseError.

Inductive outcome (A : Type) :=
| Returned (a : A) (s : State)
| Raised (e : exn) (s : State).
Arguments Returned {A} a s.
Arguments Raised {A} e s.

Definition final {A} (o : outcome A) : State :=
  match o with Returned _ s => s | Raised _ s => s end.

Definition M (A : Type) : Type := Backend → State → outcome A.

#[global] Instance M_ret : MRet M := λ A a _ s, Returned a s.

#[global] Instance M_bind : MBind M := λ A B f m db s,
  match m db s with
  | Returned a s' => f a db s'
  | Raised e s' => Raised e s'
  end.

(** Run one query: the backend may refuse it, otherwise the table changes. *)
Definition execute {A} (q : query) (f : Table → A * Table) : M A := λ db s,
  if db q then
    let '(a, t) := f (PartialDigest_objects s) in
    Returned a (mkState t (_postponed_partial_digests s))
  else Raised DatabaseError s.

Definition matches (uid : Z) (flag : option bool) (pd : PartialDigest) : bool :=
  bool_decide (user pd = uid) &&
  match flag with Some c => bool_decide (confirmed pd = c) | None => true end.

(** [PartialDigest.objects.filter(user=user)] and
    [PartialDigest.objects.filter(user=user, confirmed=confirmed)], evaluated. *)
Definition objects_filter (u : User) (flag : option bool) : M (list PartialDigest) :=
  execute (Select (user_pk u) flag)
    (λ t, (filter (λ pd, matches (user_pk u) flag pd = true) (rows t), t)).

(** [PartialDigest.objects.filter(user=user).delete()] *)
Definition objects_filter_delete (u : User) : M unit :=
  execute (Delete (user_pk u))
    (λ t, (tt, mkTable (filter (λ pd, user pd ≠ user_pk u) (rows t)) (next_pk t))).

(** [PartialDigest.objects.create(user=, login=, confirmed=, partial_digest=)] *)
Definition objects_create (u : User) (l : string) (c : bool) (d : string) : M unit :=
  execute (Insert (user_pk u) l d c)
    (λ t, (tt, mkTable (rows t ++ [mkPartialDigest (next_pk t) (user_pk u) l d c])
                       (next_pk t + 1))).

(** [pd.save()] on a row read from the table: an UPDATE by primary key. *)
Definition save (pd : PartialDigest) : M unit :=
  execute (Update pd)
    (λ t, (tt, mkTable ((λ r, if bool_decide (pk r = pk pd) then pd else r) <$> rows t)
                       (next_pk t))).

(** [pd.delete()] *)
Definition delete_row (pd : PartialDigest) : M unit :=
  execute (DeleteRow (pk pd))
    (λ t, (tt, mkTable (filter (λ r, pk r ≠ pk pd) (rows t)) (next_pk t))).

(** [_postponed_partial_digests[key]] *)
Definition postponed_getitem (key : string) : M (list Staged) := λ _ s,
  match _postponed_partial_digests s !! key with
  | Some v => Returned v s
  | None => Raised KeyError s
  end.

(** [_postponed_partial_digests[key] = v] *)
Definition postponed_setitem (key : string) (v : list Staged) : M unit := λ _ s,
  Returned tt (mkState (PartialDigest_objects s) (<[key := v]> (_postponed_partial_digests s))).

(** [del _postponed_partial_digests[key]] *)
Definition postponed_delitem (key : string) : M unit := λ _ s,
  match _postponed_partial_digests s !! key with
  | Some _ =>
      Returned tt (mkState (PartialDigest_objects s) (delete key (_postponed_partial_digests s)))
  | None => Raised KeyError s
  end.

(** [key in _postponed_partial_digests] *)
Definition postponed_contains (key : string) : M bool := λ _ s,
  Returned (bool_decide (is_Some (_postponed_partial_digests s !! key))) s.

(** A [for] loop whose body neither breaks nor returns. *)
Fixpoint for_each {A} (items : list A) (body : A → M unit) : M unit :=
  match items with
  | [] => mret tt
  | x :: rest => body x ;; for_each rest body
  end.

(** ** The module's functions *)

Section models.

(** [python_digest.calculate_partial_digest(username, realm, password)] *)
Variable calculate_partial_digest : string → string → string → string.

Definition _get_logins (cfg : Settings) (u : User) (method_name : string) : gset string :=
  let login_factory := DIGEST_LOGIN_FACTORY cfg in
  match login_factory !! method_name with
  | Some method => list_to_set (method u)
  | None => ∅
  end.

Definition _confirmed_logins (cfg : Settings) (u : User) : gset string :=
  _get_logins cfg u "confirmed_logins_for_user".

Definition _unconfirmed_logins (cfg : Settings) (u : User) : gset string :=
  _get_logins cfg u "unconfirmed_logins_for_user".

(** The set the enumerator reports for a [confirmed] flag. *)
Definition enumerated (cfg : Settings) (u : User) (c : bool) : gset string :=
  if c then _confirmed_logins cfg u else _unconfirmed_logins cfg u.

Definition _store_partial_digests (u : User) : M unit :=
  objects_filter_delete u ;;
  staged ← postponed_getitem (password u) ;
  for_each staged (λ '(l, d, c), objects_create u l c d).

(** The two [(confirmed, factory_method)] pairs both loops run over. *)
Definition factory_methods : list (bool * (Settings → User → gset string)) :=
  [(true, _confirmed_logins); (false, _unconfirmed_logins)].

(** Iterating over a Python set is iterating over [elements] of the [gset];
    Python fixes no order, and no theorem below depends on one. *)
Definition _prepare_partial_digests (cfg : Settings) (u : User)
    (raw_password : option string) : M unit :=
  match raw_password with
  | None => mret tt
  | Some raw =>
      let realm := DIGEST_REALM cfg in
      let partial_digests :=
        foldl (λ acc '(c, factory_method),
                 acc ++ ((λ l, (l, calculate_partial_digest l realm raw, c))
                           <$> elements (factory_method cfg u)))
              [] factory_methods in
      let password_hash := password u in
      postponed_setitem password_hash partial_digests
  end.

Definition _persist_partial_digests (u : User) : M unit :=
  let password_hash := password u in
  present ← postponed_contains password_hash ;
  if (present : bool) then
    _store_partial_digests u ;;
    postponed_delitem password_hash
  else mret tt.

(** [pd.confirmed = c] on the Python object of a row. *)
Definition set_confirmed (c : bool) (pd : PartialDigest) : PartialDigest :=
  mkPartialDigest (pk pd) (user pd) (login pd) (partial_digest pd) c.

(** The body of the loop of [_review_partial_digests]. *)
Definition review_row (confirmed_logins unconfirmed_logins : gset string)
    (pd : PartialDigest) : M unit :=
  if bool_decide (login pd ∈ confirmed_logins) then
    if negb (confirmed pd) then save (set_confirmed true pd) else mret tt
  else if bool_decide (login pd ∈ unconfirmed_logins) then
    if confirmed pd then save (set_confirmed false pd) else mret tt
  else delete_row pd.

Definition _review_partial_digests (cfg : Settings) (u : User) : M unit :=
  let confirmed_logins := _confirmed_logins cfg u in
  let unconfirmed_logins := _unconfirmed_logins cfg u in
  pds ← objects_filter u None ;
  for_each pds (review_row confirmed_logins unconfirmed_logins).

(** The loop of [_after_authenticate]; its body ends in [return] when the
    sets differ, so the remaining pairs are visited only otherwise. *)
Fixpoint _after_authenticate_loop (cfg : Settings) (u : User) (raw : option string)
    (pairs : list (bool * (Settings → User → gset string))) : M unit :=
  match pairs with
  | [] => mret tt
  | (c, factory_method) :: rest =>
      let logins := factory_method cfg u in
      pds ← objects_filter u (Some c) ;
      let db_logins : gset string := list_to_set (login <$> pds) in
      if bool_decide (db_logins ≠ logins) then
        _prepare_partial_digests cfg u raw ;;
        _persist_partial_digests u
      else _after_authenticate_loop cfg u raw rest
  end.

Definition _after_authenticate (cfg : Settings) (u : User) (raw : option string) : M unit :=
  _after_authenticate_loop cfg u raw factory_methods.

Definition _post_save_persist_partial_digests (instance : option User) : M unit :=
  match instance with
  | Some u => _persist_partial_digests u
  | None => mret tt
  end.

(** The list that [_prepare_partial_digests] stages. *)
Definition staged_for (cfg : Settings) (u : User) (raw : string) : list Staged :=
  ((λ l, (l, calculate_partial_digest l (DIGEST_REALM cfg) raw, true))
     <$> elements (_confirmed_logins cfg u)) ++
  ((λ l, (l, calculate_partial_digest l (DIGEST_REALM cfg) raw, false))
     <$> elements (_unconfirmed_logins cfg u)).

(** The three operations of the synchroniser, each with the settings in
    force and the user object it is called on. *)
Inductive operation :=
| ComputeAndStage (cfg : Settings) (u : User) (raw : option string)
| Flush (u : User)
| Reconcile (cfg : Settings) (u : User) (raw : option string).

Definition perform (op : operation) : M unit :=
  match op with
  | ComputeAndStage cfg u raw => _prepare_partial_digests cfg u raw
  | Flush u => _persist_partial_digests u
  | Reconcile cfg u raw => _after_authenticate cfg u raw
  end.

(** The enumerator reports no login as both confirmed and unconfirmed. *)
Definition disjoint_sets (op : operation) : Prop :=
  match op with
  | ComputeAndStage cfg u _ | Reconcile cfg u _ =>
      _confirmed_logins cfg u ## _unconfirmed_logins cfg u
  | Flush _ => True
  end.

End models.

(** ** Observations on a state *)

Definition table_rows (s : State) : list PartialDigest := rows (PartialDigest_objects s).

(** The rows that belong to a user. *)
Definition rows_of (u : User) (s : State) : list PartialDigest :=
  filter (λ pd, user pd = user_pk u) (table_rows s).

(** The rows of a user as a set of [(login, confirmed)] pairs. *)
Definition login_flags (u : User) (s : State) : gset (string * bool) :=
  list_to_set ((λ pd, (login pd, confirmed pd)) <$> rows_of u s).

(** The logins of the rows of a user that carry a given [confirmed] flag. *)
Definition db_logins (u : User) (c : bool) (s : State) : gset string :=
  list_to_set (login <$> filter (λ pd, matches (user_pk u) (Some c) pd = true) (table_rows s)).

(** The rows that a run of [objects_create] over a staged list appends. *)
Fixpoint created_rows (uid : Z) (n : Z) (staged : list Staged) : list PartialDigest :=
  match staged with
  | [] => []
  | (l, d, c) :: rest => mkPartialDigest n uid l d c :: created_rows uid (n + 1) rest
  end.

(** The table after a full replace of a user's rows by a staged list. *)
Definition replaced (uid : Z) (staged : list Staged) (t : Table) : Table :=
  mkTable (filter (λ pd, user pd ≠ uid) (rows t) ++ created_rows uid (next_pk t) staged)
          (next_pk t + Z.of_nat (length staged)).

(** The state of a fresh process on an empty table. *)
Definition initial : State := mkState (mkTable [] 1) ∅.

(** The table agrees with the enumerator on both flags: the condition under
    which [_after_authenticate] changes nothing. *)
Definition in_sync (cfg : Settings) (u : User) (s : State) : Prop :=
  db_logins u true s = _confirmed_logins cfg u ∧
  db_logins u false s = _unconfirmed_logins cfg u.

#[global] Instance in_sync_dec cfg u s : Decision (in_sync cfg u s).
Proof. unfold in_sync. apply _. Defined.

Definition row_key (pd : PartialDigest) : Z * string := (user pd, login pd).

(** No two rows of the table share user and login. *)
Definition unique_logins (s : State) : Prop := NoDup (row_key <$> table_rows s).

(** No staged list names a login twice. *)
Definition staged_unique (s : State) : Prop :=
  ∀ key (staged : list Staged),
    _postponed_partial_digests s !! key = Some staged → NoDup (staged.*1.*1).

(** A computation that returns on some backend returns the same value and
    state on the backend that refuses nothing. *)
Definition returns_as_reliable {A} (m : M A) : Prop :=
  ∀ db s a s', m db s = Returned a s' → m reliable s = Returned a s'.

(** ** Properties stated of the module, as predicates *)

Section statements.

Variable calculate_partial_digest : string → string → string → string.

(** Reconciling updates the row [r] where it is: afterwards the table holds
    the same row (same primary key, user, login and digest) flagged
    confirmed. *)
Definition flips_in_place (cfg : Settings) (u : User) (raw : string) (s : State)
    (r : PartialDigest) : Prop :=
  ∃ s', _after_authenticate calculate_partial_digest cfg u (Some raw) reliable s
          = Returned tt s' ∧
        set_confirmed true r ∈ table_rows s'.

(** A flush that raises leaves the rows of the user as they were. *)
Definition flush_is_atomic (db : Backend) (u : User) (s : State) : Prop :=
  ∀ e s', _persist_partial_digests u db s = Raised e s' → rows_of u s' = rows_of u s.

(** What a flush for [a] does to the table does not depend on whether digests
    were staged for [b] just before. *)
Definition flush_ignores_staging_of (cfg : Settings) (a b : User) (raw : string)
    (s : State) : Prop :=
  PartialDigest_objects
    (final ((_prepare_partial_digests calculate_partial_digest cfg b (Some raw) ;;
             _persist_partial_digests a) reliable s)) =
  PartialDigest_objects (final (_persist_partial_digests a reliable s)).

End statements.

(** ** Sample data for the examples *)

(** A stand-in for [calculate_partial_digest] in the examples; the theorems
    hold for every function. *)
Definition sample_digest (l realm raw : string) : string :=
  l +:+ ":" +:+ realm +:+ ":" +:+ raw.

(** A login factory with both methods. *)
Definition factory (confirmed_logins_for_user unconfirmed_logins_for_user : User → list string)
    : gmap string (User → list string) :=
  <["confirmed_logins_for_user" := confirmed_logins_for_user]>
    (<["unconfirmed_logins_for_user" := unconfirmed_logins_for_user]> ∅).

(** Username and e-mail address are confirmed logins, nothing is unconfirmed. *)
Definition name_and_email : Settings :=
  mkSettings (factory (λ u, [username u; email u]) (λ _, [])) "DJANGO".

(** The username is reported both as confirmed and as unconfirmed. *)
Definition overlapping : Settings :=
  mkSettings (factory (λ u, [username u]) (λ u, [username u])) "DJANGO".

(** The short name "al" was unconfirmed and is confirmed now. *)
Definition al_unconfirmed : Settings :=
  mkSettings (factory (λ u, [username u]) (λ _, ["al"])) "DJANGO".
Definition al_confirmed : Settings :=
  mkSettings (factory (λ u, [username u; "al"]) (λ _, [])) "DJANGO".

Definition alice : User := mkUser 1 "alice" "alice@x.com" "md5$4a7d1ed4".
(** A second user whose stored password hash is the same string. *)
Definition bob : User := mkUser 2 "bob" "bob@x.com" "md5$4a7d1ed4".
Definition carol : User := mkUser 3 "carol" "carol@x.com" "md5$9e107d9d".

(** A backend that enforces [max_length=128] of [PartialDigest.login]. *)
Definition enforces_max_length : Backend := λ q,
  match q with
  | Insert _ l _ _ => bool_decide (String.length l ≤ 128)%nat
  | _ => true
  end.

Fixpoint repeated (n : nat) (s : string) : string :=
  match n with O => "" | S n' => s +:+ repeated n' s end.

(** A user whose e-mail address is 136 characters long. *)
Definition dave : User :=
  mkUser 4 "dave" (repeated 13 "0123456789" +:+ "@x.com") "md5$0cc175b9".

(** The unconfirmed row of alice for "al". *)
Definition al_row : PartialDigest :=
  mkPartialDigest 2 1 "al" (sample_digest "al" "DJANGO" "secret") false.

(** The table after alice authenticated while "al" was still unconfirmed. *)
Definition al_pending : State :=
  mkState (mkTable [mkPartialDigest 1 1 "alice" (sample_digest "alice" "DJANGO" "secret") true;
                    al_row] 3) ∅.

(** Dave has a row for his username; digests for a new password are staged,
    one of them for his 136-character e-mail address. *)
Definition dave_staged : State :=
  mkState (mkTable [mkPartialDigest 1 4 "dave" (sample_digest "dave" "DJANGO" "old") true] 2)
          {[ password dave :=
               [("dave", sample_digest "dave" "DJANGO" "new", true);
                (email dave, sample_digest (email dave) "DJANGO" "new", true)] ]}.

(** ** The patched methods *)

Section wrappers.

Variable calculate_partial_digest : string → string → string → string.

(** The methods the module saves before it patches them:
    [_old_set_password = User.set_password],
    [_old_check_password = User.check_password],
    [_old_create_user = type(User.objects)._create_user] and
    [_old_authenticate = ModelBackend.authenticate].  They belong to Django
    and to the configured user model, so they are arbitrary computations here.
    Where Python mutates the user object, the computation returns the object
    as it is afterwards. *)
Context {Manager Extra ModelBackend Request : Type}.
Variable _old_set_password : User → option string → M User.
Variable _old_check_password : User → option string → M (bool * User).
Variable _old_create_user :
  Manager → string → option string → option string → Extra → M User.
Variable _old_authenticate :
  ModelBackend → Request → option string → option string → M (option User).

Definition _new_check_password (cfg : Settings) (u : User) (raw_password : option string)
    : M (bool * User) :=
  '(result, u') ← _old_check_password u raw_password ;
  if (result : bool) then
    _after_authenticate calculate_partial_digest cfg u' raw_password ;;
    mret (result, u')
  else mret (result, u').

(** [if user:] holds for every user object and fails for [None]. *)
Definition _new_authenticate (cfg : Settings) (backend : ModelBackend) (request : Request)
    (username password : option string) : M (option User) :=
  found ← _old_authenticate backend request username password ;
  match found with
  | Some u =>
      _after_authenticate calculate_partial_digest cfg u password ;;
      mret (Some u)
  | None => mret None
  end.

Definition _new_set_password (cfg : Settings) (u : User) (raw_password : option string)
    : M User :=
  u' ← _old_set_password u raw_password ;
  _prepare_partial_digests calculate_partial_digest cfg u' raw_password ;;
  mret u'.

Definition _new_create_user (cfg : Settings) (self : Manager) (username : string)
    (email password : option string) (extra : Extra) : M User :=
  u ← _old_create_user self username email password extra ;
  _prepare_partial_digests calculate_partial_digest cfg u password ;;
  _persist_partial_digests u ;;
  mret u.

End wrappers.

(** ** What the functions leave alone, and what a review does to a row *)

(** Whatever the backend does and however the run ends, the observation
    [obs] of the state is after the run what it was before. *)
Definition preserves {A X} (obs : State → X) (m : M A) : Prop :=
  ∀ db s, obs (final (m db s)) = obs s.

(** The user an operation is called on. *)
Definition op_user (op : operation) : User :=
  match op with
  | ComputeAndStage _ u _ | Flush u | Reconcile _ u _ => u
  end.

(** What [_review_partial_digests] does to a row whose login is reported as
    confirmed, as unconfirmed, or not at all. *)
Definition reviewed_flag (confirmed_logins unconfirmed_logins : gset string)
    (pd : PartialDigest) : option PartialDigest :=
  if bool_decide (login pd ∈ confirmed_logins) then Some (set_confirmed true pd)
  else if bool_decide (login pd ∈ unconfirmed_logins) then Some (set_confirmed false pd)
  else None.

(** The same for a row of any user: rows of other users stay. *)
Definition reviewed (cfg : Settings) (u : User) (pd : PartialDigest) : option PartialDigest :=
  if bool_decide (user pd = user_pk u)
  then reviewed_flag (_confirmed_logins cfg u) (_unconfirmed_logins cfg u) pd
  else Some pd.

(** The loop of [_review_partial_digests] once it has visited the rows whose
    primary keys are [visited]. *)
Definition review_at (confirmed_logins unconfirmed_logins : gset string)
    (visited : list Z) (pd : PartialDigest) : option PartialDigest :=
  if bool_decide (pk pd ∈ visited)
  then reviewed_flag confirmed_logins unconfirmed_logins pd
  else Some pd.

(** What the table holds for a user right after digests were computed from
    [raw] and flushed: the rows mirror the enumerator, each holds the digest of
    its login, and nothing is left staged under the user's hash. *)
Definition freshly_synchronised
    (calculate_partial_digest : string → string → string → string)
    (cfg : Settings) (u : User) (raw : string) (s : State) : Prop :=
  login_flags u s =
    set_map (λ l, (l, true)) (_confirmed_logins cfg u) ∪
    set_map (λ l, (l, false)) (_unconfirmed_logins cfg u) ∧
  (∀ pd, pd ∈ rows_of u s →
     partial_digest pd = calculate_partial_digest (login pd) (DIGEST_REALM cfg) raw) ∧
  _postponed_partial_digests s !! password u = None.

(** The staged tuple a row was created from. *)
Definition row_tuple (pd : PartialDigest) : Staged :=
  (login pd, partial_digest pd, confirmed pd).

(** A backend that answers reads and refuses every write. *)
Definition read_only : Backend := λ q,
  match q with Select _ _ => true | _ => false end.

(** The rows of [al_pending] and a row of bob. *)
Definition with_bob : State :=
  mkState (mkTable (table_rows al_pending ++
                    [mkPartialDigest 3 2 "bob" (sample_digest "bob" "DJANGO" "hunter2") true]) 4) ∅.

(** The rows of [al_pending], with one tuple staged under alice's hash. *)
Definition alice_staged : State :=
  mkState (mkTable (table_rows al_pending) 3)
          {[ password alice := [("alice", sample_digest "alice" "DJANGO" "secret", true)] ]}.

(** Digests staged for carol and not flushed yet. *)
Definition carol_pending : State :=
  mkState (mkTable [] 1)
          {[ password carol := [("carol", sample_digest "carol" "DJANGO" "hunter2", true)] ]}.

Definition erin : User := mkUser 5 "erin" "erin@x.com" "plain$secret".

(** Stand-ins for Django's methods in the examples. *)
Definition sample_hash (raw : option string) : string :=
  match raw with Some p => "plain$" +:+ p | None => "!unusable" end.
Definition sample_set_password (u : User) (raw : option string) : M User :=
  mret (mkUser (user_pk u) (username u) (email u) (sample_hash raw)).
Definition sample_check_password (u : User) (raw : option string) : M (bool * User) :=
  mret (bool_decide (password u = sample_hash raw), u).
Definition sample_create_user (_ : unit) (name : string) (mail raw : option string)
    (_ : unit) : M User :=
  mret (mkUser 9 name (default "" mail) (sample_hash raw)).
Definition sample_authenticate (_ _ : unit) (name raw : option string) : M (option User) :=
  mret (if bool_decide (name = Some "alice" ∧ raw = Some "secret") then Some alice else None).

Section facts.

Variable calculate_partial_digest : string → string → string → string.

Abbreviation prepare := (_prepare_partial_digests calculate_partial_digest).
Abbreviation reconcile := (_after_authenticate calculate_partial_digest).
Abbreviation staged := (staged_for calculate_partial_digest).
Abbreviation run_op := (perform calculate_partial_digest).

Lemma bind_run {A B} (m : M A) (f : A → M B) db s :
  (m ≫= f) db s =
  match m db s with Returned a s' => f a db s' | Raised e s' => Raised e s' end.
Proof. reflexivity. Qed.

Lemma for_each_app {A} (l1 l2 : list A) (body : A → M unit) db s :
  for_each (l1 ++ l2) body db s =
  match for_each l1 body db s with
  | Returned _ s' => for_each l2 body db s'
  | Raised e s' => Raised e s'
  end.
Proof.
  revert s. induction l1 as [|x l1 IH]; intros s; [done|].
  cbn [app for_each]. rewrite !bind_run. destruct (body x db s); [apply IH|done].
Qed.

Lemma prepare_some cfg u raw db s :
  prepare cfg u (Some raw) db s =
  Returned tt (mkState (PartialDigest_objects s)
                       (<[password u := staged cfg u raw]> (_postponed_partial_digests s))).
Proof. reflexivity. Qed.

Lemma create_all u staged db t cache :
  Forall (λ '(l, d, c), db (Insert (user_pk u) l d c) = true) staged →
  for_each staged (λ '(l, d, c), objects_create u l c d) db (mkState t cache) =
  Returned tt (mkState (mkTable (rows t ++ created_rows (user_pk u) (next_pk t) staged)
                                (next_pk t + Z.of_nat (length staged))) cache).
Proof.
  revert t. induction staged as [|[[l d] c] rest IH]; intros t Hok.
  - simpl. unfold mret, M_ret. destruct t as [r n]; simpl.
    by rewrite app_nil_r, Z.add_0_r.
  - apply Forall_cons in Hok as [Hhd Htl].
    cbn [for_each]. rewrite bind_run.
    unfold objects_create at 1, execute. rewrite Hhd. cbn.
    rewrite (IH _ Htl). cbn [rows next_pk created_rows].
    rewrite <- app_assoc. cbn [app]. do 3 f_equal. lia.
Qed.

Lemma Forall_reliable uid (staged : list Staged) :
  Forall (λ '(l, d, c), reliable (Insert uid l d c) = true) staged.
Proof. apply Forall_forall. by intros [[??]?] _. Qed.

Lemma persist_absent u db s :
  _postponed_partial_digests s !! password u = None →
  _persist_partial_digests u db s = Returned tt s.
Proof.
  intros Hnone. unfold _persist_partial_digests. rewrite bind_run.
  unfold postponed_contains. rewrite Hnone.
  rewrite bool_decide_eq_false_2; [done|]. by intros [? ?].
Qed.

Lemma persist_present u staged s :
  _postponed_partial_digests s !! password u = Some staged →
  _persist_partial_digests u reliable s =
  Returned tt (mkState (replaced (user_pk u) staged (PartialDigest_objects s))
                       (delete (password u) (_postponed_partial_digests s))).
Proof.
  intros Hsome. unfold _persist_partial_digests. rewrite bind_run.
  unfold postponed_contains. rewrite Hsome.
  rewrite bool_decide_eq_true_2 by eauto.
  rewrite bind_run. unfold _store_partial_digests. rewrite !bind_run.
  unfold objects_filter_delete, execute. cbn [reliable].
  cbn [PartialDigest_objects _postponed_partial_digests].
  rewrite bind_run.
  unfold postponed_getitem at 1. cbn [_postponed_partial_digests]. rewrite Hsome.
  rewrite create_all by apply Forall_reliable.
  unfold postponed_delitem. cbn [_postponed_partial_digests PartialDigest_objects rows next_pk].
  by rewrite Hsome.
Qed.

Lemma stage_then_persist cfg u raw s :
  (prepare cfg u (Some raw) ;; _persist_partial_digests u) reliable s =
  Returned tt (mkState (replaced (user_pk u) (staged cfg u raw) (PartialDigest_objects s))
                       (delete (password u) (_postponed_partial_digests s))).
Proof.
  rewrite bind_run, prepare_some.
  erewrite persist_present by (cbn; apply lookup_insert_eq).
  cbn. by rewrite delete_insert_eq.
Qed.

(** *** Membership in tables and in the sets read from them *)

Lemma elem_of_created_rows uid n staged pd :
  pd ∈ created_rows uid n staged ↔
  user pd = uid ∧ (login pd, partial_digest pd, confirmed pd) ∈ staged ∧
  ∃ i : nat, staged !! i = Some (login pd, partial_digest pd, confirmed pd) ∧
             pk pd = n + Z.of_nat i.
Proof.
  revert n. induction staged as [|[[l d] c] rest IH]; intros n; cbn [created_rows].
  - split; [by intros ?%elem_of_nil|]. by intros (_ & ?%elem_of_nil & _).
  - rewrite elem_of_cons, IH. split.
    + intros [->|(Hu & Hin & i & Hi & Hpk)]; cbn.
      * split; [done|]. split; [left|]. exists 0%nat. split; [done|lia].
      * split; [done|]. split; [by right|]. exists (S i). split; [done|lia].
    + intros (Hu & Hin & [|i] & Hi & Hpk).
      * left. cbn in Hi. destruct pd; cbn in *. simplify_eq. f_equal. lia.
      * right. split; [done|]. split; [by eapply list_elem_of_lookup_2|].
        exists i. split; [done|lia].
Qed.

Lemma created_rows_of_staged uid n staged l d c :
  (l, d, c) ∈ staged → ∃ pd, pd ∈ created_rows uid n staged ∧
    user pd = uid ∧ login pd = l ∧ partial_digest pd = d ∧ confirmed pd = c.
Proof.
  intros [i Hi]%list_elem_of_lookup_1.
  exists (mkPartialDigest (n + Z.of_nat i) uid l d c). split; [|done].
  apply elem_of_created_rows. cbn. split; [done|].
  split; [by eapply list_elem_of_lookup_2|]. by exists i.
Qed.

Lemma filter_all {A} (P : A → Prop) `{!∀ x, Decision (P x)} (l : list A) :
  Forall P l → filter P l = l.
Proof.
  induction 1 as [|x l Hx _ IH]; [done|]. by rewrite filter_cons_True, IH.
Qed.

Lemma filter_none {A} (P : A → Prop) `{!∀ x, Decision (P x)} (l : list A) :
  Forall (λ x, ¬ P x) l → filter P l = [].
Proof.
  induction 1 as [|x l Hx _ IH]; [done|]. by rewrite filter_cons_False.
Qed.

(** After a replace, the rows of the user are the rows just created. *)
Lemma rows_of_replaced u staged t cache :
  rows_of u (mkState (replaced (user_pk u) staged t) cache) =
  created_rows (user_pk u) (next_pk t) staged.
Proof.
  unfold rows_of, table_rows, replaced. cbn [PartialDigest_objects rows].
  rewrite filter_app, filter_none, filter_all; [done|..].
  - apply Forall_forall. by intros pd (? & _)%elem_of_created_rows.
  - apply Forall_forall. by intros pd [? _]%list_elem_of_filter.
Qed.

Lemma elem_of_replaced uid staged t pd :
  pd ∈ rows (replaced uid staged t) ↔
  (pd ∈ rows t ∧ user pd ≠ uid) ∨ pd ∈ created_rows uid (next_pk t) staged.
Proof.
  unfold replaced; cbn. rewrite elem_of_app, list_elem_of_filter. tauto.
Qed.

Lemma matches_true uid c pd :
  matches uid (Some c) pd = true ↔ user pd = uid ∧ confirmed pd = c.
Proof.
  unfold matches. rewrite andb_true_iff, !bool_decide_eq_true. done.
Qed.

Lemma elem_of_db_logins u c s l :
  l ∈ db_logins u c s ↔
  ∃ pd, pd ∈ table_rows s ∧ user pd = user_pk u ∧ confirmed pd = c ∧ login pd = l.
Proof.
  unfold db_logins. rewrite elem_of_list_to_set, list_elem_of_fmap.
  split.
  - intros (pd & -> & [Hm Hin]%list_elem_of_filter).
    apply matches_true in Hm as [? ?]. by exists pd.
  - intros (pd & Hin & Hu & Hc & <-). exists pd. split; [done|].
    apply list_elem_of_filter. split; [|done]. by apply matches_true.
Qed.

Lemma elem_of_login_flags u s l c :
  (l, c) ∈ login_flags u s ↔
  ∃ pd, pd ∈ table_rows s ∧ user pd = user_pk u ∧ login pd = l ∧ confirmed pd = c.
Proof.
  unfold login_flags, rows_of. rewrite elem_of_list_to_set, list_elem_of_fmap.
  split.
  - intros (pd & [= -> ->] & [Hu Hin]%list_elem_of_filter). by exists pd.
  - intros (pd & Hin & Hu & <- & <-). exists pd. split; [done|].
    by apply list_elem_of_filter.
Qed.

Lemma elem_of_staged_for cfg u raw l d c :
  (l, d, c) ∈ staged cfg u raw ↔
  d = calculate_partial_digest l (DIGEST_REALM cfg) raw ∧
  l ∈ enumerated cfg u c.
Proof.
  unfold staged_for. rewrite elem_of_app, !list_elem_of_fmap.
  setoid_rewrite elem_of_elements. unfold enumerated.
  destruct c; split.
  - intros [(x & [= -> ->] & ?)|(x & [=] & ?)]. done.
  - intros [-> ?]. left. by eexists.
  - intros [(x & [=] & ?)|(x & [= -> ->] & ?)]. done.
  - intros [-> ?]. right. by eexists.
Qed.

(** The rows of [u] after its rows were replaced by what was staged for it. *)
Lemma replaced_rows_of cfg u raw t cache pd :
  pd ∈ table_rows (mkState (replaced (user_pk u) (staged cfg u raw) t) cache) →
  user pd = user_pk u →
  partial_digest pd = calculate_partial_digest (login pd) (DIGEST_REALM cfg) raw ∧
  login pd ∈ enumerated cfg u (confirmed pd) ∧
  next_pk t ≤ pk pd.
Proof.
  unfold table_rows; cbn [PartialDigest_objects].
  intros [[_ ?]|Hnew]%elem_of_replaced Hu; [done|].
  apply elem_of_created_rows in Hnew as (_ & Hin & i & _ & Hpk).
  apply elem_of_staged_for in Hin as [? ?]. split_and!; [done..|lia].
Qed.

Lemma replaced_has_row cfg u raw t cache l c :
  l ∈ enumerated cfg u c →
  ∃ pd, pd ∈ table_rows (mkState (replaced (user_pk u) (staged cfg u raw) t) cache) ∧
        user pd = user_pk u ∧ login pd = l ∧ confirmed pd = c ∧
        partial_digest pd = calculate_partial_digest l (DIGEST_REALM cfg) raw.
Proof.
  intros Hl.
  destruct (created_rows_of_staged (user_pk u) (next_pk t) (staged cfg u raw)
              l (calculate_partial_digest l (DIGEST_REALM cfg) raw) c)
    as (pd & Hin & Hu & Hlg & Hd & Hc).
  { by apply elem_of_staged_for. }
  exists pd. split; [|done]. unfold table_rows; cbn [PartialDigest_objects].
  apply elem_of_replaced. by right.
Qed.

Lemma db_logins_replaced cfg u raw t cache c :
  db_logins u c (mkState (replaced (user_pk u) (staged cfg u raw) t) cache) =
  enumerated cfg u c.
Proof.
  apply set_eq; intros l. rewrite elem_of_db_logins. split.
  - intros (pd & Hin & Hu & <- & <-).
    by destruct (replaced_rows_of _ _ _ _ _ _ Hin Hu) as (_ & ? & _).
  - intros Hl.
    destruct (replaced_has_row cfg u raw t cache l c Hl) as (pd & ? & ? & ? & ? & _).
    by exists pd.
Qed.

(** *** How [_after_authenticate] runs on a reliable backend *)

Lemma reconcile_in_sync cfg u raw s :
  in_sync cfg u s → reconcile cfg u raw reliable s = Returned tt s.
Proof.
  intros [Hc Hu]. unfold _after_authenticate, factory_methods.
  cbn [_after_authenticate_loop]. rewrite bind_run.
  unfold objects_filter at 1, execute. cbn [reliable].
  fold (table_rows s). fold (db_logins u true s). destruct s as [t cache].
  cbn [PartialDigest_objects _postponed_partial_digests].
  rewrite bool_decide_eq_false_2 by (intros Hne; by apply Hne).
  rewrite bind_run. unfold objects_filter at 1, execute. cbn [reliable].
  cbn [PartialDigest_objects _postponed_partial_digests].
  fold (table_rows (mkState t cache)). fold (db_logins u false (mkState t cache)).
  by rewrite bool_decide_eq_false_2 by (intros Hne; by apply Hne).
Qed.

Lemma reconcile_out_of_sync cfg u raw s :
  ¬ in_sync cfg u s →
  reconcile cfg u raw reliable s =
  (prepare cfg u raw ;; _persist_partial_digests u) reliable s.
Proof.
  intros Hns. unfold _after_authenticate, factory_methods.
  cbn [_after_authenticate_loop]. rewrite bind_run.
  unfold objects_filter at 1, execute. cbn [reliable].
  fold (table_rows s). fold (db_logins u true s). destruct s as [t cache].
  cbn [PartialDigest_objects _postponed_partial_digests].
  case_bool_decide as Hc; [done|].
  rewrite bind_run. unfold objects_filter at 1, execute. cbn [reliable].
  cbn [PartialDigest_objects _postponed_partial_digests].
  fold (table_rows (mkState t cache)). fold (db_logins u false (mkState t cache)).
  case_bool_decide as Hu; [done|].
  exfalso. apply Hns. split.
  - by destruct (decide (db_logins u true (mkState t cache) = _confirmed_logins cfg u)).
  - by destruct (decide (db_logins u false (mkState t cache) = _unconfirmed_logins cfg u)).
Qed.

Lemma in_sync_replaced cfg u raw t cache :
  in_sync cfg u (mkState (replaced (user_pk u) (staged cfg u raw) t) cache).
Proof. split; apply db_logins_replaced. Qed.

(** Every call of the three operations returns on a reliable backend. *)
Lemma prepare_returns cfg u raw db s : ∃ s', prepare cfg u raw db s = Returned tt s'.
Proof. destruct raw; by eexists. Qed.

Lemma persist_returns u s : ∃ s', _persist_partial_digests u reliable s = Returned tt s'.
Proof.
  destruct (_postponed_partial_digests s !! password u) as [staged|] eqn:E.
  - eexists. by apply persist_present.
  - eexists. by apply persist_absent.
Qed.

Lemma reconcile_returns cfg u raw s : ∃ s', reconcile cfg u raw reliable s = Returned tt s'.
Proof.
  destruct (decide (in_sync cfg u s)) as [Hs|Hs].
  - eexists. by apply reconcile_in_sync.
  - rewrite reconcile_out_of_sync by done. rewrite bind_run.
    destruct (prepare_returns cfg u raw reliable s) as [s1 ->].
    apply persist_returns.
Qed.

(** *** Runs that return are runs on a reliable backend *)

Lemma ret_as_reliable {A} (a : A) : returns_as_reliable (mret a).
Proof. by intros db s a' s' [= <- <-]. Qed.

Lemma bind_as_reliable {A B} (m : M A) (f : A → M B) :
  returns_as_reliable m → (∀ a, returns_as_reliable (f a)) →
  returns_as_reliable (m ≫= f).
Proof.
  intros Hm Hf db s b s'. rewrite !bind_run.
  destruct (m db s) as [a s1|e s1] eqn:E; [|done].
  rewrite (Hm _ _ _ _ E). apply Hf.
Qed.

Lemma execute_as_reliable {A} q (f : Table → A * Table) :
  returns_as_reliable (execute q f).
Proof.
  intros db s a s'. unfold execute. cbn [reliable]. by destruct (db q).
Qed.

Lemma for_each_as_reliable {A} (items : list A) (body : A → M unit) :
  (∀ x, returns_as_reliable (body x)) → returns_as_reliable (for_each items body).
Proof.
  intros Hbody. induction items as [|x rest IH]; cbn [for_each].
  - apply ret_as_reliable.
  - apply bind_as_reliable; [apply Hbody|by intros []].
Qed.

(** The dictionary operations never consult the backend. *)
Lemma local_as_reliable {A} (m : M A) :
  (∀ db s, m db s = m reliable s) → returns_as_reliable m.
Proof. intros Hm db s a s'. by rewrite Hm. Qed.

Lemma prepare_as_reliable cfg u raw : returns_as_reliable (prepare cfg u raw).
Proof. apply local_as_reliable. by destruct raw. Qed.

Lemma store_as_reliable u : returns_as_reliable (_store_partial_digests u).
Proof.
  apply bind_as_reliable; [apply execute_as_reliable|]. intros _.
  apply bind_as_reliable; [by apply local_as_reliable|]. intros staged.
  apply for_each_as_reliable. intros [[l d] c]. apply execute_as_reliable.
Qed.

Lemma persist_as_reliable u : returns_as_reliable (_persist_partial_digests u).
Proof.
  apply bind_as_reliable; [by apply local_as_reliable|]. intros [|].
  - apply bind_as_reliable; [apply store_as_reliable|].
    intros _. by apply local_as_reliable.
  - apply ret_as_reliable.
Qed.

Lemma reconcile_as_reliable cfg u raw : returns_as_reliable (reconcile cfg u raw).
Proof.
  unfold _after_authenticate.
  induction factory_methods as [|[c factory_method] rest IH];
    cbn [_after_authenticate_loop].
  - apply ret_as_reliable.
  - apply bind_as_reliable; [apply execute_as_reliable|]. intros pds.
    case_bool_decide; [|exact IH].
    apply bind_as_reliable; [apply prepare_as_reliable|].
    intros _. apply persist_as_reliable.
Qed.

(** Whatever the backend, a call of [_after_authenticate] that returns leaves
    the table in agreement with the enumerator. *)
Corollary reconcile_returned_in_sync cfg u raw db s s' :
  reconcile cfg u (Some raw) db s = Returned tt s' → in_sync cfg u s'.
Proof.
  intros Hrun%reconcile_as_reliable.
  destruct (decide (in_sync cfg u s)) as [Hs|Hs].
  - rewrite reconcile_in_sync in Hrun by done. by injection Hrun as <-.
  - rewrite reconcile_out_of_sync, stage_then_persist in Hrun by done.
    injection Hrun as <-. apply in_sync_replaced.
Qed.

(** *** Flushing with a backend that refuses an insert *)

Lemma getitem_present key v db s :
  _postponed_partial_digests s !! key = Some v → postponed_getitem key db s = Returned v s.
Proof. intros Hsome. unfold postponed_getitem. by rewrite Hsome. Qed.

Lemma persist_run u db s :
  _persist_partial_digests u db s =
  if bool_decide (is_Some (_postponed_partial_digests s !! password u))
  then (_store_partial_digests u ;; postponed_delitem (password u)) db s
  else Returned tt s.
Proof.
  unfold _persist_partial_digests. rewrite bind_run. unfold postponed_contains.
  by destruct (bool_decide _).
Qed.

Lemma store_interrupted db u s pre l d c post :
  _postponed_partial_digests s !! password u = Some (pre ++ (l, d, c) :: post) →
  db (Delete (user_pk u)) = true →
  Forall (λ '(l, d, c), db (Insert (user_pk u) l d c) = true) pre →
  db (Insert (user_pk u) l d c) = false →
  _store_partial_digests u db s =
  Raised DatabaseError (mkState (replaced (user_pk u) pre (PartialDigest_objects s))
                                (_postponed_partial_digests s)).
Proof.
  intros Hsome Hdel Hpre Hbad. unfold _store_partial_digests. rewrite bind_run.
  unfold objects_filter_delete, execute. rewrite Hdel. rewrite bind_run.
  erewrite getitem_present by exact Hsome.
  rewrite for_each_app, (create_all _ _ _ _ _ Hpre).
  cbn [for_each]. rewrite bind_run. unfold objects_create at 1, execute.
  by rewrite Hbad.
Qed.

(** *** Uniqueness of (user, login) *)

Lemma elem_of_rows_of u s pd :
  pd ∈ rows_of u s ↔ pd ∈ table_rows s ∧ user pd = user_pk u.
Proof. unfold rows_of. rewrite list_elem_of_filter. tauto. Qed.

Lemma staged_for_logins cfg u raw :
  (staged cfg u raw).*1.*1 =
  elements (_confirmed_logins cfg u) ++ elements (_unconfirmed_logins cfg u).
Proof.
  unfold staged_for. rewrite !fmap_app, <- !list_fmap_compose.
  f_equal; by rewrite <- (list_fmap_id (elements _)) at 2.
Qed.

Lemma created_rows_keys uid n staged :
  row_key <$> created_rows uid n staged = (λ l, (uid, l)) <$> staged.*1.*1.
Proof.
  revert n. induction staged as [|[[l d] c] rest IH]; intros n; [done|].
  cbn. by rewrite IH.
Qed.

Lemma unique_replaced uid staged t cache cache' :
  unique_logins (mkState t cache) → NoDup (staged.*1.*1) →
  unique_logins (mkState (replaced uid staged t) cache').
Proof.
  unfold unique_logins, table_rows. cbn [PartialDigest_objects replaced rows].
  intros Hold Hnew. rewrite fmap_app. apply NoDup_app. split_and!.
  - apply (sublist_NoDup _ (row_key <$> rows t)); [exact Hold|].
    apply fmap_sublist, sublist_filter.
  - intros k (pd & -> & [Hne _]%list_elem_of_filter)%list_elem_of_fmap.
    intros (pd' & Hk & (Hu & _)%elem_of_created_rows)%list_elem_of_fmap.
    apply Hne. unfold row_key in Hk. by injection Hk as -> _.
  - rewrite created_rows_keys. apply NoDup_fmap_2; [|done].
    by intros ?? [= ->].
Qed.

Lemma prepare_keeps_unique cfg u raw s :
  _confirmed_logins cfg u ## _unconfirmed_logins cfg u →
  unique_logins s → staged_unique s →
  ∃ s', prepare cfg u raw reliable s = Returned tt s' ∧
        unique_logins s' ∧ staged_unique s'.
Proof.
  intros Hdisj Hrows Hst. destruct raw as [raw|]; [|by exists s].
  rewrite prepare_some. eexists. split; [done|]. split; [done|].
  intros key staged. cbn [_postponed_partial_digests].
  rewrite lookup_insert. case_decide as Hk.
  - intros [= <-]. rewrite staged_for_logins. apply NoDup_app. split_and!.
    + apply NoDup_elements.
    + intros l Hc%elem_of_elements Hu%elem_of_elements. by apply (Hdisj l).
    + apply NoDup_elements.
  - apply Hst.
Qed.

Lemma persist_keeps_unique u s :
  unique_logins s → staged_unique s →
  ∃ s', _persist_partial_digests u reliable s = Returned tt s' ∧
        unique_logins s' ∧ staged_unique s'.
Proof.
  intros Hrows Hst.
  destruct (_postponed_partial_digests s !! password u) as [staged|] eqn:E.
  - rewrite (persist_present _ _ _ E). eexists. split; [done|]. split.
    + destruct s as [t cache]. eapply unique_replaced; [exact Hrows|].
      by eapply Hst.
    + intros key st. cbn [_postponed_partial_digests].
      intros [_ Hl]%lookup_delete_Some. by eapply Hst.
  - rewrite (persist_absent _ _ _ E). by exists s.
Qed.

Lemma perform_keeps_unique op s :
  disjoint_sets op → unique_logins s → staged_unique s →
  ∃ s', run_op op reliable s = Returned tt s' ∧ unique_logins s' ∧ staged_unique s'.
Proof.
  intros Hdisj Hrows Hst. destruct op as [cfg u raw|u|cfg u raw]; cbn [perform].
  - by apply prepare_keeps_unique.
  - by apply persist_keeps_unique.
  - destruct (decide (in_sync cfg u s)) as [Hs|Hs].
    + rewrite reconcile_in_sync by done. by exists s.
    + rewrite reconcile_out_of_sync, bind_run by done.
      destruct (prepare_keeps_unique cfg u raw s Hdisj Hrows Hst) as (s1 & -> & ? & ?).
      by apply persist_keeps_unique.
Qed.

(** *** [_review_partial_digests], the function nothing calls *)

Lemma review_row_keeps_others cs us pd x t cache :
  pk pd ≠ pk x → x ∈ rows t →
  ∃ t', review_row cs us pd reliable (mkState t cache) = Returned tt (mkState t' cache) ∧
        x ∈ rows t'.
Proof.
  intros Hpk Hx. unfold review_row.
  assert (∀ c, ∃ t', save (set_confirmed c pd) reliable (mkState t cache)
                       = Returned tt (mkState t' cache) ∧ x ∈ rows t') as Hsave.
  { intros c. eexists. split; [reflexivity|]. cbn [rows].
    apply list_elem_of_fmap. exists x. split; [|done].
    rewrite bool_decide_eq_false_2; [done|]. cbn. congruence. }
  assert (∃ t', delete_row pd reliable (mkState t cache)
                  = Returned tt (mkState t' cache) ∧ x ∈ rows t') as Hdel.
  { eexists. split; [reflexivity|]. cbn [rows].
    apply list_elem_of_filter. split; [congruence|done]. }
  repeat case_bool_decide; destruct (confirmed pd); cbn [negb];
    first [apply Hsave | exact Hdel | by exists t].
Qed.

Lemma review_rows_keep_others cs us todo x t cache :
  Forall (λ pd, pk pd ≠ pk x) todo → x ∈ rows t →
  ∃ t', for_each todo (review_row cs us) reliable (mkState t cache)
          = Returned tt (mkState t' cache) ∧ x ∈ rows t'.
Proof.
  intros Htodo. revert t. induction Htodo as [|pd todo Hpd _ IH]; intros t Hx.
  - by exists t.
  - cbn [for_each]. rewrite bind_run.
    destruct (review_row_keeps_others cs us pd x t cache Hpd Hx) as (t1 & -> & Hx1).
    by apply IH.
Qed.

Lemma review_row_flips cs us r t cache :
  login r ∈ cs → r ∈ rows t →
  ∃ t', review_row cs us r reliable (mkState t cache) = Returned tt (mkState t' cache) ∧
        set_confirmed true r ∈ rows t'.
Proof.
  intros Hc Hr. unfold review_row. rewrite bool_decide_eq_true_2 by done.
  destruct (confirmed r) eqn:E; cbn [negb].
  - exists t. split; [done|]. destruct r; cbn in *. by subst.
  - eexists. split; [reflexivity|]. cbn [rows].
    apply list_elem_of_fmap. exists r. split; [|done].
    by rewrite bool_decide_eq_true_2.
Qed.

(** Where primary keys are unique, [_review_partial_digests] turns the row of
    a login that the enumerator reports as confirmed into a confirmed row with
    the same primary key and the same digest. *)
Lemma review_flips_in_place cfg u s r :
  NoDup (pk <$> table_rows s) → r ∈ table_rows s → user r = user_pk u →
  login r ∈ _confirmed_logins cfg u →
  ∃ s', _review_partial_digests cfg u reliable s = Returned tt s' ∧
        set_confirmed true r ∈ table_rows s'.
Proof.
  intros Hpk Hr Hu Hc. destruct s as [t cache].
  unfold _review_partial_digests. rewrite bind_run.
  unfold objects_filter, execute. cbn [reliable PartialDigest_objects _postponed_partial_digests].
  unfold table_rows in *. cbn [PartialDigest_objects] in *.
  set (pds := filter _ (rows t)).
  assert (r ∈ pds) as Hin.
  { apply list_elem_of_filter. split; [|done].
    unfold matches. by rewrite bool_decide_eq_true_2. }
  assert (NoDup (pk <$> pds)) as Hnd.
  { apply (sublist_NoDup _ (pk <$> rows t)); [done|]. apply fmap_sublist, sublist_filter. }
  apply list_elem_of_split in Hin as (before & after & Hsplit).
  rewrite Hsplit in Hnd |- *. rewrite fmap_app, fmap_cons in Hnd.
  apply NoDup_app in Hnd as (_ & Hbefore & [Hafter _]%NoDup_cons).
  rewrite for_each_app.
  destruct (review_rows_keep_others (_confirmed_logins cfg u) (_unconfirmed_logins cfg u)
              before r t cache) as (t1 & -> & Hr1); [|done|].
  { apply Forall_forall. intros pd Hpd Heq. apply (Hbefore (pk pd)).
    - apply list_elem_of_fmap. by exists pd.
    - rewrite Heq. left. }
  cbn [for_each]. rewrite bind_run.
  destruct (review_row_flips (_confirmed_logins cfg u) (_unconfirmed_logins cfg u)
              r t1 cache Hc Hr1) as (t2 & -> & Hr2).
  destruct (review_rows_keep_others (_confirmed_logins cfg u) (_unconfirmed_logins cfg u)
              after (set_confirmed true r) t2 cache) as (t3 & -> & Hr3); [|done|].
  { apply Forall_forall. intros pd Hpd Heq. apply Hafter.
    apply list_elem_of_fmap. by exists pd. }
  by exists (mkState t3 cache).
Qed.

(** ** The claims *)

(** C1. After [_prepare_partial_digests(user, raw_password)] followed by
    [_persist_partial_digests(user)], the rows of the user, seen as a set of
    (login, confirmed) pairs, are the enumerator's confirmed logins paired with
    [true] together with its unconfirmed logins paired with [false]. *)
Theorem stage_and_flush_mirror_enumerator cfg u raw s :
  ∃ s', (_prepare_partial_digests calculate_partial_digest cfg u (Some raw) ;;
         _persist_partial_digests u) reliable s = Returned tt s' ∧
        login_flags u s' =
          set_map (λ l, (l, true)) (_confirmed_logins cfg u) ∪
          set_map (λ l, (l, false)) (_unconfirmed_logins cfg u).
Proof.
  eexists. split; [apply stage_then_persist|].
  apply set_eq; intros [l c].
  rewrite elem_of_login_flags, elem_of_union, !elem_of_map. split.
  - intros (pd & Hin & Hu & <- & <-).
    destruct (replaced_rows_of _ _ _ _ _ _ Hin Hu) as (_ & Hl & _).
    unfold enumerated in Hl. destruct (confirmed pd); [left|right]; by eexists.
  - intros Hl.
    assert (l ∈ enumerated cfg u c) as Hen.
    { unfold enumerated. by destruct Hl as [(x & [= -> ->] & ?)|(x & [= -> ->] & ?)]. }
    destruct (replaced_has_row cfg u raw (PartialDigest_objects s)
                (delete (password u) (_postponed_partial_digests s)) l c Hen)
      as (pd & ? & ? & ? & ? & _).
    by exists pd.
Qed.

(** C2. After [_after_authenticate(user, password)] returns, the logins of
    the user's rows flagged confirmed are the enumerator's confirmed set and
    the logins of its rows flagged unconfirmed are the unconfirmed set. *)
Theorem reconcile_matches_enumerator cfg u raw s :
  ∃ s', _after_authenticate calculate_partial_digest cfg u (Some raw) reliable s
          = Returned tt s' ∧
        db_logins u true s' = _confirmed_logins cfg u ∧
        db_logins u false s' = _unconfirmed_logins cfg u.
Proof.
  destruct (decide (in_sync cfg u s)) as [Hs|Hs].
  - exists s. split; [by apply reconcile_in_sync|]. apply Hs.
  - eexists. split.
    + rewrite reconcile_out_of_sync by done. apply stage_then_persist.
    + apply in_sync_replaced.
Qed.

(** C3, as the code has it.  When a login that has an unconfirmed row is now
    reported as confirmed (and no longer as unconfirmed), [_after_authenticate]
    does not update that row: it replaces all rows of the user.  Every row the
    user has afterwards was inserted by this call (its primary key is not below
    the table's counter before the call) and holds the digest computed from
    its login, the realm and the password just used; the login has a row
    again, and its rows are all flagged confirmed; the old row with its flag
    flipped is not in the table. *)
Theorem reconcile_recreates_moved_login cfg u raw s r :
  r ∈ table_rows s → user r = user_pk u → confirmed r = false →
  login r ∈ _confirmed_logins cfg u → login r ∉ _unconfirmed_logins cfg u →
  ∃ s', _after_authenticate calculate_partial_digest cfg u (Some raw) reliable s
          = Returned tt s' ∧
        (∀ pd, pd ∈ rows_of u s' →
           next_pk (PartialDigest_objects s) ≤ pk pd ∧
           partial_digest pd =
             calculate_partial_digest (login pd) (DIGEST_REALM cfg) raw) ∧
        (∃ pd, pd ∈ rows_of u s' ∧ login pd = login r ∧ confirmed pd = true) ∧
        (∀ pd, pd ∈ rows_of u s' → login pd = login r → confirmed pd = true) ∧
        (pk r < next_pk (PartialDigest_objects s) → set_confirmed true r ∉ table_rows s').
Proof.
  intros Hin Hu Hc Hconf Hunconf.
  assert (¬ in_sync cfg u s) as Hns.
  { intros [_ Hsync]. apply Hunconf. rewrite <- Hsync.
    apply elem_of_db_logins. by exists r. }
  rewrite reconcile_out_of_sync, stage_then_persist by done.
  eexists. split; [done|]. split_and!.
  - intros pd [Hpd Hupd]%elem_of_rows_of.
    destruct (replaced_rows_of _ _ _ _ _ _ Hpd Hupd) as (? & _ & ?). done.
  - destruct (replaced_has_row cfg u raw (PartialDigest_objects s)
                (delete (password u) (_postponed_partial_digests s)) (login r) true Hconf)
      as (pd & ? & ? & ? & ? & _).
    exists pd. by rewrite elem_of_rows_of.
  - intros pd [Hpd Hupd]%elem_of_rows_of Hl.
    destruct (replaced_rows_of _ _ _ _ _ _ Hpd Hupd) as (_ & Hen & _).
    unfold enumerated in Hen. destruct (confirmed pd); [done|].
    rewrite Hl in Hen. done.
  - intros Hold Hflipped.
    destruct (replaced_rows_of _ _ _ _ _ _ Hflipped Hu) as (_ & _ & Hnew).
    cbn [set_confirmed pk] in Hnew. lia.
Qed.

(** C4, as the code has it.  Nothing in the table or in the code forbids two
    rows with the same user and login; what keeps them apart is the login
    factory.  As long as it reports no login as both confirmed and
    unconfirmed, every sequence of staging, flushing and reconciling from the
    initial state returns and leaves at most one row per (user, login). *)
Theorem unique_logins_when_sets_disjoint ops :
  Forall disjoint_sets ops →
  ∃ s', for_each ops (perform calculate_partial_digest) reliable initial = Returned tt s' ∧
        unique_logins s'.
Proof.
  intros Hops.
  assert (∀ s, unique_logins s → staged_unique s →
            ∃ s', for_each ops (perform calculate_partial_digest) reliable s = Returned tt s' ∧
                  unique_logins s' ∧ staged_unique s') as Hgen.
  { induction Hops as [|op ops Hop _ IH]; intros s Hrows Hst.
    - by exists s.
    - cbn [for_each]. rewrite bind_run.
      destruct (perform_keeps_unique op s Hop Hrows Hst) as (s1 & -> & ? & ?).
      by apply IH. }
  destruct (Hgen initial) as (s' & ? & ? & _).
  - apply NoDup_nil_2.
  - intros key staged. unfold initial. cbn. by rewrite lookup_empty.
  - by exists s'.
Qed.

(** C5, as the code has it.  The replace of [_store_partial_digests] is a
    delete followed by one insert per staged tuple, outside any transaction:
    when the backend refuses the insert of a staged tuple, the exception
    propagates, the rows the user had before are gone, the tuples staged
    before the refused one are rows already, and the staged entry is still in
    the dictionary. *)
Theorem flush_interrupted_leaves_partial_rows db u s pre l d c post :
  _postponed_partial_digests s !! password u = Some (pre ++ (l, d, c) :: post) →
  db (Delete (user_pk u)) = true →
  Forall (λ '(l, d, c), db (Insert (user_pk u) l d c) = true) pre →
  db (Insert (user_pk u) l d c) = false →
  ∃ s', _persist_partial_digests u db s = Raised DatabaseError s' ∧
        rows_of u s' = created_rows (user_pk u) (next_pk (PartialDigest_objects s)) pre ∧
        _postponed_partial_digests s' = _postponed_partial_digests s.
Proof.
  intros Hsome Hdel Hpre Hbad. eexists. split.
  - rewrite persist_run, Hsome.
    rewrite bool_decide_eq_true_2 by eauto. rewrite bind_run.
    by rewrite (store_interrupted _ _ _ _ _ _ _ _ Hsome Hdel Hpre Hbad).
  - split; [|done]. apply rows_of_replaced.
Qed.

(** When two users hold different password hashes, staging for one does not
    change what a flush for the other persists, and the entry staged stays in
    the dictionary. *)
Lemma hashes_differ_isolated cfg a b raw s :
  password a ≠ password b →
  ∃ s1 s2, _persist_partial_digests a reliable s = Returned tt s1 ∧
           (_prepare_partial_digests calculate_partial_digest cfg b (Some raw) ;;
            _persist_partial_digests a) reliable s = Returned tt s2 ∧
           PartialDigest_objects s2 = PartialDigest_objects s1 ∧
           _postponed_partial_digests s2 =
             <[password b := staged_for calculate_partial_digest cfg b raw]>
               (_postponed_partial_digests s1).
Proof.
  intros Hne. rewrite bind_run, prepare_some.
  destruct (_postponed_partial_digests s !! password a) as [staged|] eqn:E.
  - rewrite (persist_present _ _ _ E).
    erewrite persist_present
      by (cbn [_postponed_partial_digests]; rewrite lookup_insert_ne by done; exact E).
    do 2 eexists. split_and!; [done..|].
    cbn [_postponed_partial_digests]. by rewrite delete_insert_ne.
  - rewrite (persist_absent _ _ _ E).
    rewrite persist_absent by (cbn [_postponed_partial_digests]; by rewrite lookup_insert_ne).
    by do 2 eexists.
Qed.

(** C7. Two calls of [_after_authenticate] in a row, with the same password
    and the same enumerator output, leave after the second call exactly the
    state (rows and staging dictionary) that the first call left. *)
Theorem reconcile_idempotent cfg u raw s :
  ∃ s1, _after_authenticate calculate_partial_digest cfg u raw reliable s = Returned tt s1 ∧
        _after_authenticate calculate_partial_digest cfg u raw reliable s1 = Returned tt s1.
Proof.
  destruct (decide (in_sync cfg u s)) as [Hs|Hs].
  { exists s. split; by apply reconcile_in_sync. }
  rewrite reconcile_out_of_sync by done.
  destruct raw as [raw|].
  - rewrite stage_then_persist. eexists. split; [done|].
    apply reconcile_in_sync, in_sync_replaced.
  - rewrite bind_run. cbn [_prepare_partial_digests mret M_ret].
    destruct (_postponed_partial_digests s !! password u) as [staged|] eqn:E.
    + rewrite (persist_present _ _ _ E). eexists. split; [done|].
      set (s1 := mkState _ _).
      destruct (decide (in_sync cfg u s1)) as [Hs1|Hs1].
      * by apply reconcile_in_sync.
      * rewrite reconcile_out_of_sync by done. rewrite bind_run.
        cbn [_prepare_partial_digests mret M_ret].
        apply persist_absent. subst s1. cbn. apply lookup_delete_eq.
    + rewrite (persist_absent _ _ _ E). exists s. split; [done|].
      rewrite reconcile_out_of_sync by done. rewrite bind_run.
      cbn [_prepare_partial_digests mret M_ret]. by apply persist_absent.
Qed.

(** C8. [_persist_partial_digests] changes nothing when the dictionary has no
    entry under the user's password hash; and after a flush the entry is gone,
    so that a second flush right after it changes neither the dictionary nor
    the rows. *)
Theorem flush_consumes_entry_once u s :
  (∀ db, _postponed_partial_digests s !! password u = None →
         _persist_partial_digests u db s = Returned tt s) ∧
  ∃ s1, _persist_partial_digests u reliable s = Returned tt s1 ∧
        _postponed_partial_digests s1 !! password u = None ∧
        _persist_partial_digests u reliable s1 = Returned tt s1.
Proof.
  split; [intros db; apply persist_absent|].
  destruct (_postponed_partial_digests s !! password u) as [staged|] eqn:E.
  - rewrite (persist_present _ _ _ E). eexists. split; [done|].
    assert (delete (password u) (_postponed_partial_digests s) !! password u = None) as Hgone
      by apply lookup_delete_eq.
    split; [done|]. by apply persist_absent.
  - exists s. rewrite (persist_absent _ _ _ E). done.
Qed.

(** C9. [_prepare_partial_digests(user, None)] returns without raising and
    leaves both the table and the staging dictionary as they were, whatever
    the backend does. *)
Theorem prepare_without_password_is_noop cfg u db s :
  ∃ s', _prepare_partial_digests calculate_partial_digest cfg u None db s = Returned tt s' ∧
        PartialDigest_objects s' = PartialDigest_objects s ∧
        _postponed_partial_digests s' = _postponed_partial_digests s ∧
        s' = s.
Proof.
  exists s. unfold _prepare_partial_digests.
  split; [reflexivity|]. split_and!; reflexivity.
Qed.

(** C10. A login factory that lacks [confirmed_logins_for_user] (or
    [unconfirmed_logins_for_user]) yields the empty set for that enumeration,
    and staging, flushing and reconciling all return. *)
Theorem missing_factory_method_is_empty cfg u :
  (DIGEST_LOGIN_FACTORY cfg !! "confirmed_logins_for_user" = None →
   _confirmed_logins cfg u = ∅) ∧
  (DIGEST_LOGIN_FACTORY cfg !! "unconfirmed_logins_for_user" = None →
   _unconfirmed_logins cfg u = ∅) ∧
  (∀ raw s,
     (∃ s', _prepare_partial_digests calculate_partial_digest cfg u raw reliable s
              = Returned tt s') ∧
     (∃ s', _persist_partial_digests u reliable s = Returned tt s') ∧
     (∃ s', _after_authenticate calculate_partial_digest cfg u raw reliable s
              = Returned tt s')).
Proof.
  split_and!.
  - intros Hnone. unfold _confirmed_logins, _get_logins. by rewrite Hnone.
  - intros Hnone. unfold _unconfirmed_logins, _get_logins. by rewrite Hnone.
  - intros raw s. split_and!.
    + apply prepare_returns.
    + apply persist_returns.
    + apply reconcile_returns.
Qed.

End facts.

(** ** Examples *)

(** The first authentication of alice, with "al" unconfirmed, produces
    [al_pending] from the initial state. *)
Example first_authentication :
  _after_authenticate sample_digest al_unconfirmed alice (Some "secret") reliable initial
  = Returned tt al_pending.
Proof. vm_compute. reflexivity. Qed.

(** The function that would update the flag where the row is,
    [_review_partial_digests], is defined but called from nowhere. *)
Example review_would_flip_in_place :
  table_rows (final (_review_partial_digests al_confirmed alice reliable al_pending)) =
  [mkPartialDigest 1 1 "alice" (sample_digest "alice" "DJANGO" "secret") true;
   mkPartialDigest 2 1 "al" (sample_digest "al" "DJANGO" "secret") true].
Proof. vm_compute. reflexivity. Qed.

(** C3, counterexample.  "al" has the unconfirmed row 2 and moves to the
    confirmed set; after [_after_authenticate] the table holds rows 3 and 4,
    and no row 2 with the flag flipped. *)
Lemma reconcile_does_not_flip_in_place :
  al_row ∈ table_rows al_pending ∧
  login al_row ∈ _unconfirmed_logins al_unconfirmed alice ∧
  login al_row ∈ _confirmed_logins al_confirmed alice ∧
  (login al_row ∉ _unconfirmed_logins al_confirmed alice) ∧
  pk <$> table_rows (final (_after_authenticate sample_digest al_confirmed alice
                              (Some "secret") reliable al_pending)) = [3; 4] ∧
  ¬ flips_in_place sample_digest al_confirmed alice "secret" al_pending al_row.
Proof.
  split_and!.
  - right. left.
  - by vm_compute.
  - by vm_compute.
  - by vm_compute.
  - vm_compute. reflexivity.
  - intros (s' & Hrun & Hin). vm_compute in Hrun. injection Hrun as <-.
    vm_compute in Hin.
    repeat (apply elem_of_cons in Hin as [Hin|Hin]; [discriminate Hin|]).
    by apply elem_of_nil in Hin.
Qed.

(** C3, an instance of the theorem on the same input. *)
Lemma reconcile_recreates_moved_login_witness :
  ∃ s', _after_authenticate sample_digest al_confirmed alice (Some "secret") reliable al_pending
          = Returned tt s' ∧
        (∀ pd, pd ∈ rows_of alice s' →
           3 ≤ pk pd ∧ partial_digest pd = sample_digest (login pd) "DJANGO" "secret") ∧
        (∃ pd, pd ∈ rows_of alice s' ∧ login pd = "al" ∧ confirmed pd = true) ∧
        (∀ pd, pd ∈ rows_of alice s' → login pd = "al" → confirmed pd = true) ∧
        (pk al_row < 3 → set_confirmed true al_row ∉ table_rows s').
Proof.
  apply (reconcile_recreates_moved_login sample_digest al_confirmed alice "secret" al_pending
           al_row).
  - right. left.
  - reflexivity.
  - reflexivity.
  - by vm_compute.
  - by vm_compute.
Defined.

(** C4, counterexample.  With a login factory that reports the username both
    as confirmed and as unconfirmed, staging and flushing from the initial
    state leave two rows for (alice, "alice"). *)
Lemma overlapping_sets_duplicate_login :
  for_each [ComputeAndStage overlapping alice (Some "secret"); Flush alice]
           (perform sample_digest) reliable initial =
    Returned tt
      (mkState (mkTable [mkPartialDigest 1 1 "alice" (sample_digest "alice" "DJANGO" "secret") true;
                         mkPartialDigest 2 1 "alice" (sample_digest "alice" "DJANGO" "secret") false] 3) ∅) ∧
  ¬ unique_logins
      (final (for_each [ComputeAndStage overlapping alice (Some "secret"); Flush alice]
                       (perform sample_digest) reliable initial)).
Proof.
  split; [vm_compute; reflexivity|].
  intros Hnd. vm_compute in Hnd.
  apply NoDup_cons in Hnd as [Hnotin _]. apply Hnotin. left.
Qed.

(** C4, an instance of the theorem: the same two operations with a factory
    whose sets are disjoint. *)
Lemma unique_logins_when_sets_disjoint_witness :
  ∃ s', for_each [ComputeAndStage name_and_email alice (Some "secret"); Flush alice]
                 (perform sample_digest) reliable initial = Returned tt s' ∧
        unique_logins s'.
Proof.
  apply (unique_logins_when_sets_disjoint sample_digest
           [ComputeAndStage name_and_email alice (Some "secret"); Flush alice]).
  repeat constructor. intros l _ Hin. exact (proj1 (elem_of_empty l) Hin).
Defined.

(** C5, counterexample.  The backend refuses the second staged tuple (the
    login is longer than the column); the flush raises, and dave's row 1 has
    been replaced by row 2. *)
Lemma flush_is_not_atomic :
  _persist_partial_digests dave enforces_max_length dave_staged =
    Raised DatabaseError
      (mkState (mkTable [mkPartialDigest 2 4 "dave" (sample_digest "dave" "DJANGO" "new") true] 3)
               (_postponed_partial_digests dave_staged)) ∧
  ¬ flush_is_atomic enforces_max_length dave dave_staged.
Proof.
  split; [vm_compute; reflexivity|].
  intros Hatomic.
  specialize (Hatomic DatabaseError
    (mkState (mkTable [mkPartialDigest 2 4 "dave" (sample_digest "dave" "DJANGO" "new") true] 3)
             (_postponed_partial_digests dave_staged))).
  assert (rows_of dave
            (mkState (mkTable [mkPartialDigest 2 4 "dave" (sample_digest "dave" "DJANGO" "new") true] 3)
                     (_postponed_partial_digests dave_staged))
          = rows_of dave dave_staged) as Heq.
  { apply Hatomic. vm_compute. reflexivity. }
  vm_compute in Heq. discriminate Heq.
Qed.

(** C5, an instance of the theorem on the same input. *)
Lemma flush_interrupted_leaves_partial_rows_witness :
  ∃ s', _persist_partial_digests dave enforces_max_length dave_staged
          = Raised DatabaseError s' ∧
        rows_of dave s' =
          created_rows 4 2 [("dave", sample_digest "dave" "DJANGO" "new", true)] ∧
        _postponed_partial_digests s' = _postponed_partial_digests dave_staged.
Proof.
  apply (flush_interrupted_leaves_partial_rows enforces_max_length dave dave_staged
           [("dave", sample_digest "dave" "DJANGO" "new", true)]
           (email dave) (sample_digest (email dave) "DJANGO" "new") true []).
  - vm_compute. reflexivity.
  - reflexivity.
  - repeat constructor.
  - vm_compute. reflexivity.
Defined.

(** C6, counterexample.  alice and bob are different users whose stored
    password hashes are the same string.  Digests staged for bob are written
    as rows of alice by a flush for alice, which without that staging would
    have left the table empty. *)
Lemma flush_persists_other_users_staging :
  user_pk alice ≠ user_pk bob ∧
  table_rows (final (_persist_partial_digests alice reliable initial)) = [] ∧
  login_flags alice
    (final ((_prepare_partial_digests sample_digest name_and_email bob (Some "hunter2") ;;
             _persist_partial_digests alice) reliable initial))
    = {[ ("bob", true); ("bob@x.com", true) ]} ∧
  ¬ flush_ignores_staging_of sample_digest name_and_email alice bob "hunter2" initial.
Proof.
  split_and!.
  - discriminate.
  - reflexivity.
  - vm_compute. reflexivity.
  - intros Heq. vm_compute in Heq. discriminate Heq.
Qed.

(** C8, an instance: nothing is staged in the initial state. *)
Lemma flush_consumes_entry_once_witness :
  _persist_partial_digests alice enforces_max_length initial = Returned tt initial.
Proof.
  apply (proj1 (flush_consumes_entry_once alice initial) enforces_max_length).
  reflexivity.
Defined.

(** C10, an instance: a login factory that defines neither method. *)
Lemma missing_factory_method_is_empty_witness :
  _confirmed_logins (mkSettings ∅ "DJANGO") alice = ∅ ∧
  _unconfirmed_logins (mkSettings ∅ "DJANGO") alice = ∅.
Proof.
  split.
  - apply (proj1 (missing_factory_method_is_empty sample_digest (mkSettings ∅ "DJANGO") alice)).
    reflexivity.
  - apply (proj1 (proj2 (missing_factory_method_is_empty sample_digest
                           (mkSettings ∅ "DJANGO") alice))).
    reflexivity.
Defined.

(** ** Further properties of the module *)

Section frames.

Variable calculate_partial_digest : string → string → string → string.

(** *** What a run leaves alone *)

Lemma final_bind {A B} (m : M A) (f : A → M B) db s :
  final ((m ≫= f) db s) =
  match m db s with Returned a s' => final (f a db s') | Raised _ s' => s' end.
Proof. rewrite bind_run. by destruct (m db s). Qed.

Lemma preserves_ret {A X} (obs : State → X) (a : A) : preserves obs (mret a).
Proof. by intros db s. Qed.

Lemma preserves_bind {A B X} (obs : State → X) (m : M A) (f : A → M B) :
  preserves obs m → (∀ a, preserves obs (f a)) → preserves obs (m ≫= f).
Proof.
  intros Hm Hf db s. rewrite final_bind. specialize (Hm db s).
  destruct (m db s) as [a s1|e s1]; cbn [final] in Hm; [|done].
  by rewrite Hf.
Qed.

Lemma preserves_for_each {A X} (obs : State → X) (items : list A) (body : A → M unit) :
  (∀ x, preserves obs (body x)) → preserves obs (for_each items body).
Proof.
  intros Hbody. induction items as [|x rest IH]; cbn [for_each].
  - apply preserves_ret.
  - apply preserves_bind; [apply Hbody|by intros []].
Qed.

Lemma preserves_execute {A X} (obs : State → X) q (f : Table → A * Table) :
  (∀ t cache, obs (mkState (f t).2 cache) = obs (mkState t cache)) →
  preserves obs (execute q f).
Proof.
  intros Hf db [t cache]. unfold execute. destruct (db q); [|done].
  cbn [PartialDigest_objects _postponed_partial_digests].
  specialize (Hf t cache). by destruct (f t).
Qed.

Lemma preserves_if {A X} (obs : State → X) (b : bool) (m1 m2 : M A) :
  preserves obs m1 → preserves obs m2 → preserves obs (if b then m1 else m2).
Proof. by destruct b. Qed.

(** Observations of the table are untouched by the dictionary operations,
    observations of the dictionary by the queries. *)
Lemma preserves_setitem {X} (obs : State → X) key v :
  (∀ t cache, obs (mkState t (<[key := v]> cache)) = obs (mkState t cache)) →
  preserves obs (postponed_setitem key v).
Proof. intros Hobs db [t cache]. apply Hobs. Qed.

Lemma preserves_delitem {X} (obs : State → X) key :
  (∀ t cache, obs (mkState t (delete key cache)) = obs (mkState t cache)) →
  preserves obs (postponed_delitem key).
Proof.
  intros Hobs db [t cache]. unfold postponed_delitem.
  cbn [_postponed_partial_digests]. destruct (cache !! key); [apply Hobs|done].
Qed.

Lemma preserves_getitem {X} (obs : State → X) key : preserves obs (postponed_getitem key).
Proof. intros db s. unfold postponed_getitem. by destruct (_ !! key). Qed.

Lemma preserves_contains {X} (obs : State → X) key : preserves obs (postponed_contains key).
Proof. by intros db s. Qed.

Lemma preserves_prepare {X} (obs : State → X) cfg u raw :
  (∀ t cache v, obs (mkState t (<[password u := v]> cache)) = obs (mkState t cache)) →
  preserves obs (_prepare_partial_digests calculate_partial_digest cfg u raw).
Proof.
  intros Hobs. destruct raw as [raw|]; [|apply preserves_ret].
  apply preserves_setitem. intros t cache. apply Hobs.
Qed.

Lemma preserves_store {X} (obs : State → X) u :
  (∀ t cache, obs (mkState (mkTable (filter (λ pd, user pd ≠ user_pk u) (rows t))
                                    (next_pk t)) cache) = obs (mkState t cache)) →
  (∀ t cache l d c,
     obs (mkState (mkTable (rows t ++ [mkPartialDigest (next_pk t) (user_pk u) l d c])
                           (next_pk t + 1)) cache) = obs (mkState t cache)) →
  preserves obs (_store_partial_digests u).
Proof.
  intros Hdel Hins. apply preserves_bind.
  { apply preserves_execute. intros t cache. apply Hdel. }
  intros _. apply preserves_bind; [apply preserves_getitem|]. intros staged.
  apply preserves_for_each. intros [[l d] c].
  apply preserves_execute. intros t cache. apply Hins.
Qed.

Lemma preserves_persist {X} (obs : State → X) u :
  (∀ t cache, obs (mkState (mkTable (filter (λ pd, user pd ≠ user_pk u) (rows t))
                                    (next_pk t)) cache) = obs (mkState t cache)) →
  (∀ t cache l d c,
     obs (mkState (mkTable (rows t ++ [mkPartialDigest (next_pk t) (user_pk u) l d c])
                           (next_pk t + 1)) cache) = obs (mkState t cache)) →
  (∀ t cache, obs (mkState t (delete (password u) cache)) = obs (mkState t cache)) →
  preserves obs (_persist_partial_digests u).
Proof.
  intros Hdel Hins Hkey. apply preserves_bind; [apply preserves_contains|].
  intros present. apply preserves_if; [|apply preserves_ret].
  apply preserves_bind; [by apply preserves_store|].
  intros _. by apply preserves_delitem.
Qed.

Lemma preserves_reconcile {X} (obs : State → X) cfg u raw :
  preserves obs (_prepare_partial_digests calculate_partial_digest cfg u raw) →
  preserves obs (_persist_partial_digests u) →
  preserves obs (_after_authenticate calculate_partial_digest cfg u raw).
Proof.
  intros Hprep Hpers. unfold _after_authenticate.
  induction factory_methods as [|[c factory_method] rest IH];
    cbn [_after_authenticate_loop].
  - apply preserves_ret.
  - apply preserves_bind.
    { apply preserves_execute. by intros t cache. }
    intros pds. apply preserves_if; [|exact IH].
    apply preserves_bind; [exact Hprep|]. by intros _.
Qed.

Lemma rows_of_after_delete u v t cache :
  user_pk v ≠ user_pk u →
  rows_of v (mkState (mkTable (filter (λ pd, user pd ≠ user_pk u) (rows t)) (next_pk t)) cache)
  = rows_of v (mkState t cache).
Proof.
  intros Hne. unfold rows_of, table_rows. cbn [PartialDigest_objects rows].
  rewrite list_filter_filter. apply list_filter_iff. intros pd. split; [tauto|].
  intros Hv. split; [done|]. congruence.
Qed.

Lemma rows_of_after_create u v t cache l d c :
  user_pk v ≠ user_pk u →
  rows_of v (mkState (mkTable (rows t ++ [mkPartialDigest (next_pk t) (user_pk u) l d c])
                              (next_pk t + 1)) cache)
  = rows_of v (mkState t cache).
Proof.
  intros Hne. unfold rows_of, table_rows. cbn [PartialDigest_objects rows].
  rewrite filter_app, filter_cons_False, filter_nil, app_nil_r; [done|].
  cbn. congruence.
Qed.

(** X1. Staging, flushing and reconciling for one user never change the rows of
    another user: on every backend, and whether the call returns or raises,
    the rows of [v] are afterwards exactly the rows before. *)
Theorem other_users_rows_untouched op v db s :
  user_pk v ≠ user_pk (op_user op) →
  rows_of v (final (perform calculate_partial_digest op db s)) = rows_of v s.
Proof.
  intros Hne.
  assert (∀ cfg u raw, u = op_user op →
            preserves (rows_of v) (_prepare_partial_digests calculate_partial_digest cfg u raw))
    as Hprep.
  { intros cfg u raw _. by apply preserves_prepare. }
  assert (∀ u, u = op_user op → preserves (rows_of v) (_persist_partial_digests u)) as Hpers.
  { intros u ->. apply preserves_persist.
    - intros t cache. by apply rows_of_after_delete.
    - intros t cache l d c. by apply rows_of_after_create.
    - done. }
  destruct op as [cfg u raw|u|cfg u raw]; cbn [perform op_user] in *.
  - by apply Hprep.
  - by apply Hpers.
  - apply preserves_reconcile; [by apply Hprep|by apply Hpers].
Qed.

(** X2. Staging, flushing and reconciling for a user read and write the staging
    dictionary only under that user's password hash: every other entry is
    afterwards what it was, on every backend and also when the call raises. *)
Theorem other_staged_entries_untouched op key db s :
  key ≠ password (op_user op) →
  _postponed_partial_digests (final (perform calculate_partial_digest op db s)) !! key =
  _postponed_partial_digests s !! key.
Proof.
  intros Hne.
  set (obs := λ s : State, _postponed_partial_digests s !! key).
  assert (∀ cfg u raw, u = op_user op →
            preserves obs (_prepare_partial_digests calculate_partial_digest cfg u raw))
    as Hprep.
  { intros cfg u raw ->. apply preserves_prepare. intros t cache w. unfold obs. cbn.
    by rewrite lookup_insert_ne. }
  assert (∀ u, u = op_user op → preserves obs (_persist_partial_digests u)) as Hpers.
  { intros u ->. apply preserves_persist; [done..|].
    intros t cache. unfold obs. cbn. by rewrite lookup_delete_ne. }
  change (obs (final (perform calculate_partial_digest op db s)) = obs s).
  destruct op as [cfg u raw|u|cfg u raw]; cbn [perform op_user] in *.
  - by apply Hprep.
  - by apply Hpers.
  - apply preserves_reconcile; [by apply Hprep|by apply Hpers].
Qed.

End frames.

Section flushing.

Variable calculate_partial_digest : string → string → string → string.

(** *** Staging and flushing on any backend *)

Lemma created_rows_tuples uid n staged :
  row_tuple <$> created_rows uid n staged = staged.
Proof.
  revert n. induction staged as [|[[l d] c] rest IH]; intros n; [done|].
  cbn. by rewrite IH.
Qed.

Lemma create_run u l c d db t cache :
  objects_create u l c d db (mkState t cache) =
  if db (Insert (user_pk u) l d c)
  then Returned tt (mkState (mkTable (rows t ++ [mkPartialDigest (next_pk t) (user_pk u) l d c])
                                     (next_pk t + 1)) cache)
  else Raised DatabaseError (mkState t cache).
Proof. reflexivity. Qed.

Lemma create_loop_outcome db u staged t cache :
  ∃ t', for_each staged (λ '(l, d, c), objects_create u l c d) db (mkState t cache)
          = Returned tt (mkState t' cache) ∨
        for_each staged (λ '(l, d, c), objects_create u l c d) db (mkState t cache)
          = Raised DatabaseError (mkState t' cache).
Proof.
  revert t. induction staged as [|[[l d] c] rest IH]; intros t.
  - exists t. by left.
  - cbn [for_each]. rewrite !bind_run, !create_run.
    destruct (db (Insert (user_pk u) l d c)).
    + apply IH.
    + exists t. by right.
Qed.

(** A flush that returns on some backend has done the full replace. *)
Lemma stage_then_persist_returned cfg u raw db s s' :
  (_prepare_partial_digests calculate_partial_digest cfg u (Some raw) ;;
   _persist_partial_digests u) db s = Returned tt s' →
  s' = mkState (replaced (user_pk u) (staged_for calculate_partial_digest cfg u raw)
                         (PartialDigest_objects s))
               (delete (password u) (_postponed_partial_digests s)).
Proof.
  intros Hrun.
  assert (returns_as_reliable
            (_prepare_partial_digests calculate_partial_digest cfg u (Some raw) ;;
             _persist_partial_digests u)) as Hrel.
  { apply bind_as_reliable; [apply prepare_as_reliable|].
    intros _. apply persist_as_reliable. }
  apply Hrel in Hrun. rewrite stage_then_persist in Hrun. by injection Hrun.
Qed.

(** X3. After staging with a password and flushing, on whatever backend lets
    both return, every row of the user holds the digest of its own login, the
    configured realm and that password; the user has one row per confirmed
    login and one per unconfirmed login; and the staged entry is gone. *)
Theorem flushed_rows_hold_digests cfg u raw db s s' :
  (_prepare_partial_digests calculate_partial_digest cfg u (Some raw) ;;
   _persist_partial_digests u) db s = Returned tt s' →
  (∀ pd, pd ∈ rows_of u s' →
     partial_digest pd = calculate_partial_digest (login pd) (DIGEST_REALM cfg) raw) ∧
  length (rows_of u s') =
    (size (_confirmed_logins cfg u) + size (_unconfirmed_logins cfg u))%nat ∧
  _postponed_partial_digests s' !! password u = None.
Proof.
  intros ->%stage_then_persist_returned. split_and!.
  - intros pd [Hpd Hu]%elem_of_rows_of.
    by destruct (replaced_rows_of _ _ _ _ _ _ _ Hpd Hu) as (? & _).
  - rewrite rows_of_replaced.
    rewrite <- (length_fmap row_tuple), created_rows_tuples.
    unfold staged_for. by rewrite length_app, !length_fmap.
  - cbn. apply lookup_delete_eq.
Qed.

(** X4. What [_prepare_partial_digests] stages: a list without repetitions that
    holds, for each flag, exactly one tuple per login of the corresponding
    set, with the digest of that login, however often the login factory's
    list repeats a login; the table is not touched. *)
Theorem staged_entry_contents cfg u raw db s :
  ∃ staged,
    _postponed_partial_digests
      (final (_prepare_partial_digests calculate_partial_digest cfg u (Some raw) db s))
      !! password u = Some staged ∧
    NoDup staged ∧
    (∀ l d c, (l, d, c) ∈ staged ↔
       d = calculate_partial_digest l (DIGEST_REALM cfg) raw ∧ l ∈ enumerated cfg u c) ∧
    PartialDigest_objects
      (final (_prepare_partial_digests calculate_partial_digest cfg u (Some raw) db s))
      = PartialDigest_objects s.
Proof.
  exists (staged_for calculate_partial_digest cfg u raw). rewrite prepare_some.
  split_and!.
  - cbn. apply lookup_insert_eq.
  - unfold staged_for. apply NoDup_app. split_and!.
    + apply NoDup_fmap_2; [by intros ?? [= ->]|apply NoDup_elements].
    + intros [[l d] c] (x & [= -> -> ->] & _)%list_elem_of_fmap.
      by intros (y & [=] & _)%list_elem_of_fmap.
    + apply NoDup_fmap_2; [by intros ?? [= ->]|apply NoDup_elements].
  - intros l d c. apply elem_of_staged_for.
  - done.
Qed.

(** X5. Staging under a hash that already has a staged entry replaces the entry:
    a flush then persists the later staging only. *)
Theorem later_staging_wins cfg1 cfg2 u1 u2 raw1 raw2 db s :
  password u1 = password u2 →
  (_prepare_partial_digests calculate_partial_digest cfg1 u1 raw1 ;;
   _prepare_partial_digests calculate_partial_digest cfg2 u2 (Some raw2) ;;
   _persist_partial_digests u2) db s =
  (_prepare_partial_digests calculate_partial_digest cfg2 u2 (Some raw2) ;;
   _persist_partial_digests u2) db s.
Proof.
  intros Hpw. destruct raw1 as [raw1|]; [|done].
  rewrite (bind_run (_prepare_partial_digests _ cfg1 u1 _)), prepare_some.
  rewrite !(bind_run (_prepare_partial_digests _ cfg2 u2 _)), !prepare_some.
  cbn [PartialDigest_objects _postponed_partial_digests].
  by rewrite Hpw, insert_insert_eq.
Qed.

Lemma persist_raised u db s e s' :
  _persist_partial_digests u db s = Raised e s' →
  e = DatabaseError ∧ _postponed_partial_digests s' = _postponed_partial_digests s ∧
  is_Some (_postponed_partial_digests s !! password u).
Proof.
  rewrite persist_run. case_bool_decide as Hsome; [|done].
  destruct Hsome as [staged Hsome]. intros Hrun. rewrite bind_run in Hrun.
  unfold _store_partial_digests in Hrun. rewrite bind_run in Hrun.
  unfold objects_filter_delete at 1, execute in Hrun.
  destruct (db (Delete (user_pk u))).
  - rewrite bind_run in Hrun. erewrite getitem_present in Hrun by exact Hsome.
    destruct s as [t cache]. cbn [PartialDigest_objects _postponed_partial_digests] in *.
    destruct (create_loop_outcome db u staged
                (mkTable (filter (λ pd, user pd ≠ user_pk u) (rows t)) (next_pk t)) cache)
      as (t' & [Hloop|Hloop]); rewrite Hloop in Hrun.
    + unfold postponed_delitem in Hrun. cbn in Hrun. by rewrite Hsome in Hrun.
    + injection Hrun as <- <-. eauto.
  - injection Hrun as <- <-. eauto.
Qed.

(** X6. [_persist_partial_digests] never lets a [KeyError] out: when it
    raises, the exception is the backend's, and the staging dictionary is
    exactly as it was, so the staged entry is still there. *)
Theorem persist_raises_only_database_error u db s e s' :
  _persist_partial_digests u db s = Raised e s' →
  e = DatabaseError ∧ _postponed_partial_digests s' = _postponed_partial_digests s ∧
  is_Some (_postponed_partial_digests s !! password u).
Proof. apply persist_raised. Qed.

(** X7. A flush that raised can be tried again: the entry is still staged, and a
    flush on a working backend then returns, leaves for the user exactly one
    row per staged tuple, in order, and removes the entry. *)
Theorem failed_flush_can_be_retried u db s e s1 :
  _persist_partial_digests u db s = Raised e s1 →
  ∃ staged s2,
    _postponed_partial_digests s !! password u = Some staged ∧
    _persist_partial_digests u reliable s1 = Returned tt s2 ∧
    row_tuple <$> rows_of u s2 = staged ∧
    _postponed_partial_digests s2 !! password u = None.
Proof.
  intros Hrun.
  destruct (persist_raised _ _ _ _ _ Hrun) as (_ & Hcache & [staged Hsome]).
  assert (_postponed_partial_digests s1 !! password u = Some staged) as Hsome1
    by by rewrite Hcache.
  exists staged. eexists. split; [done|]. split; [by apply persist_present|].
  split.
  - by rewrite rows_of_replaced, created_rows_tuples.
  - cbn. apply lookup_delete_eq.
Qed.

(** X8. Called without a staged entry, [_store_partial_digests] has already
    deleted the rows of the user when the lookup raises [KeyError]. *)
Theorem store_without_entry_deletes_rows u db s :
  _postponed_partial_digests s !! password u = None →
  db (Delete (user_pk u)) = true →
  ∃ s', _store_partial_digests u db s = Raised KeyError s' ∧
        rows_of u s' = [] ∧
        _postponed_partial_digests s' = _postponed_partial_digests s.
Proof.
  intros Hnone Hdel. unfold _store_partial_digests. rewrite bind_run.
  unfold objects_filter_delete at 1, execute. rewrite Hdel, bind_run.
  unfold postponed_getitem at 1. cbn [_postponed_partial_digests]. rewrite Hnone.
  eexists. split; [done|]. split; [|done].
  unfold rows_of, table_rows. cbn [PartialDigest_objects rows].
  apply filter_none, Forall_forall. by intros pd [? _]%list_elem_of_filter.
Qed.

(** *** Reconciling on any backend *)

(** X9. When the table agrees with the enumerator, [_after_authenticate] only
    reads: on a backend that answers the two selects and refuses every write
    it returns, and the state, stored digests included, is as before. *)
Theorem reconcile_in_sync_only_reads cfg u raw db s :
  db (Select (user_pk u) (Some true)) = true →
  db (Select (user_pk u) (Some false)) = true →
  in_sync cfg u s →
  _after_authenticate calculate_partial_digest cfg u raw db s = Returned tt s.
Proof.
  intros Ht Hf [Hc Hu]. unfold _after_authenticate, factory_methods.
  cbn [_after_authenticate_loop]. rewrite bind_run.
  unfold objects_filter at 1, execute. rewrite Ht.
  fold (table_rows s). fold (db_logins u true s). destruct s as [t cache].
  cbn [PartialDigest_objects _postponed_partial_digests].
  rewrite bool_decide_eq_false_2 by (intros Hne; by apply Hne).
  rewrite bind_run. unfold objects_filter at 1, execute. rewrite Hf.
  cbn [PartialDigest_objects _postponed_partial_digests].
  fold (table_rows (mkState t cache)). fold (db_logins u false (mkState t cache)).
  by rewrite bool_decide_eq_false_2 by (intros Hne; by apply Hne).
Qed.

(** X10. Without a raw password and with nothing staged under the user's hash,
    [_after_authenticate] cannot repair anything: in sync or not, returning
    or raising, it leaves the state as it found it. *)
Theorem reconcile_without_password_changes_nothing cfg u db s :
  _postponed_partial_digests s !! password u = None →
  final (_after_authenticate calculate_partial_digest cfg u None db s) = s.
Proof.
  intros Hnone. unfold _after_authenticate.
  induction factory_methods as [|[c factory_method] rest IH];
    cbn [_after_authenticate_loop]; [done|].
  rewrite final_bind. unfold objects_filter at 1, execute.
  destruct (db _); [|done]. destruct s as [t cache].
  cbn [PartialDigest_objects _postponed_partial_digests] in *.
  case_bool_decide; [|exact IH].
  rewrite final_bind. cbn [_prepare_partial_digests mret M_ret].
  by rewrite persist_absent.
Qed.

(** *** One dictionary key per password hash *)

Lemma hashes_equal_collide cfg a b raw s :
  password a = password b →
  ∃ s2, (_prepare_partial_digests calculate_partial_digest cfg b (Some raw) ;;
         _persist_partial_digests a) reliable s = Returned tt s2 ∧
        s2 = mkState (replaced (user_pk a) (staged_for calculate_partial_digest cfg b raw)
                               (PartialDigest_objects s))
                     (delete (password b) (_postponed_partial_digests s)).
Proof.
  intros Heq. rewrite bind_run, prepare_some.
  erewrite persist_present
    by (cbn [_postponed_partial_digests]; rewrite Heq; apply lookup_insert_eq).
  eexists. split; [done|]. cbn [PartialDigest_objects _postponed_partial_digests].
  by rewrite Heq, delete_insert_eq.
Qed.

(** C6, as the code has it.  The dictionary is keyed by [user.password]
    alone, so two stagings collide exactly when the two user objects carry the
    same password hash.  With different hashes, staging for [b] does not
    change what a flush for [a] persists, and the entry staged for [b] stays
    in the dictionary.  With the same hash, whoever the two users are, the
    flush for [a] replaces the rows of [a] by one row per tuple staged for
    [b] and consumes the entry.  Hence the flush for [a] ignores the staging
    for [b] in every state exactly when the hashes differ. *)
Theorem staged_entries_collide_on_equal_hash cfg a b raw :
  (password a ≠ password b →
   ∀ s, ∃ s1 s2,
     _persist_partial_digests a reliable s = Returned tt s1 ∧
     (_prepare_partial_digests calculate_partial_digest cfg b (Some raw) ;;
      _persist_partial_digests a) reliable s = Returned tt s2 ∧
     PartialDigest_objects s2 = PartialDigest_objects s1 ∧
     _postponed_partial_digests s2 =
       <[password b := staged_for calculate_partial_digest cfg b raw]>
         (_postponed_partial_digests s1)) ∧
  (password a = password b →
   ∀ s, ∃ s2,
     (_prepare_partial_digests calculate_partial_digest cfg b (Some raw) ;;
      _persist_partial_digests a) reliable s = Returned tt s2 ∧
     row_tuple <$> rows_of a s2 = staged_for calculate_partial_digest cfg b raw ∧
     (∀ pd, pd ∈ rows_of a s2 → next_pk (PartialDigest_objects s) ≤ pk pd) ∧
     _postponed_partial_digests s2 !! password b = None) ∧
  ((∀ s, flush_ignores_staging_of calculate_partial_digest cfg a b raw s) ↔
   password a ≠ password b).
Proof.
  split_and!.
  - intros Hne s. by apply hashes_differ_isolated.
  - intros Heq s. destruct (hashes_equal_collide cfg a b raw s Heq) as (s2 & Hrun & ->).
    eexists. split; [exact Hrun|]. split_and!.
    + by rewrite rows_of_replaced, created_rows_tuples.
    + intros pd. rewrite rows_of_replaced.
      intros (_ & _ & i & _ & ->)%elem_of_created_rows. lia.
    + cbn. apply lookup_delete_eq.
  - split.
    + intros Hignore Heq.
      set (r := mkPartialDigest 0 (user_pk a) "" "" true).
      set (s := mkState (mkTable [r] 1) ∅).
      specialize (Hignore s). unfold flush_ignores_staging_of in Hignore.
      destruct (hashes_equal_collide cfg a b raw s Heq) as (s2 & Hrun & ->).
      rewrite Hrun in Hignore.
      rewrite persist_absent in Hignore by apply lookup_empty.
      cbn [final PartialDigest_objects] in Hignore.
      assert (r ∈ rows (replaced (user_pk a)
                          (staged_for calculate_partial_digest cfg b raw)
                          (PartialDigest_objects s)))
        as Hin by (rewrite Hignore; left).
      apply elem_of_replaced in Hin as [[_ Hu]|Hnew]; [by apply Hu|].
      apply elem_of_created_rows in Hnew as (_ & _ & i & _ & Hpk).
      cbn in Hpk. lia.
    + intros Hne s. unfold flush_ignores_staging_of.
      destruct (hashes_differ_isolated calculate_partial_digest cfg a b raw s Hne)
        as (s1 & s2 & -> & -> & Htable & _).
      exact Htable.
Qed.

End flushing.

Section reviewing.

Variable calculate_partial_digest : string → string → string → string.

(** *** [_review_partial_digests] in closed form *)

Lemma omap_pointwise {A B} (f g : A → option B) (l : list A) :
  (∀ x, x ∈ l → f x = g x) → omap f l = omap g l.
Proof.
  induction l as [|x l IH]; intros Hfg; [done|]. cbn.
  rewrite (Hfg x) by left. rewrite IH; [done|]. intros y Hy. apply Hfg. by right.
Qed.

Lemma omap_keep {A} (f : A → option A) (l : list A) :
  (∀ x, x ∈ l → f x = Some x) → omap f l = l.
Proof.
  induction l as [|x l IH]; intros Hf; [done|]. cbn.
  rewrite (Hf x) by left. cbn. rewrite IH; [done|]. intros y Hy. apply Hf. by right.
Qed.

Lemma omap_twice {A} (f g : A → option A) (l : list A) :
  omap g (omap f l) = omap (λ x, f x ≫= g) l.
Proof.
  induction l as [|x l IH]; [done|]. cbn. destruct (f x) as [y|]; cbn; [|done].
  destruct (g y); cbn; by rewrite IH.
Qed.

Lemma omap_as_fmap {A} (f : A → option A) (g : A → A) (l : list A) :
  (∀ x, x ∈ l → f x = Some (g x)) → g <$> l = omap f l.
Proof.
  induction l as [|x l IH]; intros Hf; [done|]. cbn.
  rewrite (Hf x) by left. cbn. rewrite IH; [done|]. intros y Hy. apply Hf. by right.
Qed.

Lemma omap_as_filter {A} (f : A → option A) (P : A → Prop) `{!∀ x, Decision (P x)}
    (l : list A) :
  (∀ x, x ∈ l → f x = if decide (P x) then Some x else None) → filter P l = omap f l.
Proof.
  induction l as [|x l IH]; intros Hf; [done|].
  rewrite filter_cons, IH by (intros y Hy; apply Hf; by right).
  cbn. rewrite (Hf x) by left. by destruct (decide (P x)).
Qed.

Lemma same_pk_same_row (l : list PartialDigest) x y :
  NoDup (pk <$> l) → x ∈ l → y ∈ l → pk x = pk y → x = y.
Proof.
  induction l as [|z l IH]; [by intros _ ?%elem_of_nil|].
  rewrite fmap_cons. intros [Hz Hl]%NoDup_cons [->|Hx]%elem_of_cons [->|Hy]%elem_of_cons Hpk.
  - done.
  - destruct Hz. rewrite Hpk. apply list_elem_of_fmap. by exists y.
  - destruct Hz. rewrite <- Hpk. apply list_elem_of_fmap. by exists x.
  - by apply IH.
Qed.

Lemma reviewed_flag_fields cs us pd pd' :
  reviewed_flag cs us pd = Some pd' →
  pk pd' = pk pd ∧ user pd' = user pd ∧ login pd' = login pd ∧
  partial_digest pd' = partial_digest pd ∧
  login pd ∈ cs ∪ us ∧ (confirmed pd' = true ↔ login pd ∈ cs).
Proof.
  unfold reviewed_flag. repeat case_bool_decide; intros [= <-]; cbn;
    (split_and!; [done..|set_solver|]); split; try done; by intros [=].
Qed.

Lemma reviewed_flag_again cs us pd pd' :
  reviewed_flag cs us pd = Some pd' → reviewed_flag cs us pd' = Some pd'.
Proof.
  unfold reviewed_flag. repeat case_bool_decide; intros [= <-]; cbn;
    by rewrite ?bool_decide_eq_true_2, ?bool_decide_eq_false_2 by done.
Qed.

Lemma set_confirmed_same c pd : confirmed pd = c → set_confirmed c pd = pd.
Proof. intros <-. by destruct pd. Qed.

Lemma review_at_one cs us k r :
  review_at cs us [k] r = if decide (pk r = k) then reviewed_flag cs us r else Some r.
Proof.
  unfold review_at. destruct (decide (pk r = k)) as [Hk|Hk].
  - rewrite bool_decide_eq_true_2; [done|]. by apply list_elem_of_singleton.
  - rewrite bool_decide_eq_false_2; [done|]. by rewrite list_elem_of_singleton.
Qed.

Lemma review_row_run cs us pd rs n cache :
  (∀ r, r ∈ rs → pk r = pk pd → r = pd) →
  review_row cs us pd reliable (mkState (mkTable rs n) cache) =
  Returned tt (mkState (mkTable (omap (review_at cs us [pk pd]) rs) n) cache).
Proof.
  intros Hsame.
  assert (∀ fate, reviewed_flag cs us pd = fate →
            ∀ r, r ∈ rs →
              review_at cs us [pk pd] r = if decide (pk r = pk pd) then fate else Some r)
    as Hat.
  { intros fate <- r Hr. rewrite review_at_one.
    destruct (decide (pk r = pk pd)) as [Hk|Hk]; [|done]. by rewrite (Hsame r Hr Hk). }
  unfold review_row, save, delete_row, execute; cbn [reliable].
  cbn [PartialDigest_objects _postponed_partial_digests rows next_pk].
  unfold reviewed_flag in Hat.
  destruct (bool_decide (login pd ∈ cs));
    [|destruct (bool_decide (login pd ∈ us))];
    try destruct (confirmed pd) eqn:Ef; cbn [negb mret M_ret]; do 3 f_equal;
    specialize (Hat _ eq_refl).
  - symmetry. apply omap_keep. intros r Hr. rewrite (Hat r Hr).
    destruct (decide (pk r = pk pd)) as [Hk|Hk]; [|done].
    by rewrite (set_confirmed_same true pd Ef), (Hsame r Hr Hk).
  - apply omap_as_fmap. intros r Hr. rewrite (Hat r Hr). cbn [set_confirmed pk].
    destruct (decide (pk r = pk pd)) as [Hk|Hk].
    + by rewrite bool_decide_eq_true_2.
    + by rewrite bool_decide_eq_false_2.
  - apply omap_as_fmap. intros r Hr. rewrite (Hat r Hr). cbn [set_confirmed pk].
    destruct (decide (pk r = pk pd)) as [Hk|Hk].
    + by rewrite bool_decide_eq_true_2.
    + by rewrite bool_decide_eq_false_2.
  - symmetry. apply omap_keep. intros r Hr. rewrite (Hat r Hr).
    destruct (decide (pk r = pk pd)) as [Hk|Hk]; [|done].
    by rewrite (set_confirmed_same false pd Ef), (Hsame r Hr Hk).
  - apply omap_as_filter. intros r Hr. rewrite (Hat r Hr).
    destruct (decide (pk r = pk pd)) as [Hk|Hk].
    + by rewrite decide_False by (by intros ?).
    + by rewrite decide_True.
  - apply omap_as_filter. intros r Hr. rewrite (Hat r Hr).
    destruct (decide (pk r = pk pd)) as [Hk|Hk].
    + by rewrite decide_False by (by intros ?).
    + by rewrite decide_True.
Qed.

Lemma review_loop_run cs us todo rs n cache :
  NoDup (pk <$> todo) →
  (∀ pd r, pd ∈ todo → r ∈ rs → pk r = pk pd → r = pd) →
  for_each todo (review_row cs us) reliable (mkState (mkTable rs n) cache) =
  Returned tt (mkState (mkTable (omap (review_at cs us (pk <$> todo)) rs) n) cache).
Proof.
  revert rs. induction todo as [|pd rest IH]; intros rs Hnd Hsame.
  - cbn [for_each fmap list_fmap]. rewrite omap_keep; [done|].
    intros r _. unfold review_at. rewrite bool_decide_eq_false_2; [done|].
    apply not_elem_of_nil.
  - rewrite fmap_cons in Hnd. apply NoDup_cons in Hnd as [Hfresh Hnd].
    cbn [for_each]. rewrite bind_run.
    rewrite review_row_run by (intros r Hr; apply Hsame; [left|done]).
    rewrite IH; [|done|].
    + do 3 f_equal. rewrite omap_twice. apply omap_pointwise. intros r Hr.
      rewrite review_at_one, fmap_cons.
      destruct (decide (pk r = pk pd)) as [Hk|Hk].
      * unfold review_at at 2. rewrite bool_decide_eq_true_2 by (rewrite Hk; left).
        destruct (reviewed_flag cs us r) as [r'|] eqn:Ef; [|done]. cbn.
        unfold review_at. rewrite bool_decide_eq_false_2; [done|].
        apply reviewed_flag_fields in Ef as (-> & _). by rewrite Hk.
      * cbn. unfold review_at.
        rewrite (bool_decide_ext (pk r ∈ pk pd :: (pk <$> rest)) (pk r ∈ pk <$> rest));
          [done|]. rewrite elem_of_cons. tauto.
    + intros pd2 r Hpd2 (r0 & Hr0 & Hat)%list_elem_of_omap Hpk.
      rewrite review_at_one in Hat.
      destruct (decide (pk r0 = pk pd)) as [Hk|Hk].
      * destruct Hfresh. apply reviewed_flag_fields in Hat as (Hrk & _).
        rewrite <- Hk, <- Hrk, Hpk. apply list_elem_of_fmap. by exists pd2.
      * injection Hat as <-. apply Hsame; [by right|done..].
Qed.

(** On a table whose primary keys are unique, [_review_partial_digests]
    returns the table in which every row has met its [reviewed] fate. *)
Lemma review_run cfg u s :
  NoDup (pk <$> table_rows s) →
  _review_partial_digests cfg u reliable s =
  Returned tt (mkState (mkTable (omap (reviewed cfg u) (table_rows s))
                                (next_pk (PartialDigest_objects s)))
                       (_postponed_partial_digests s)).
Proof.
  intros Hnd. destruct s as [[rs n] cache]. unfold table_rows in *.
  cbn [PartialDigest_objects rows next_pk _postponed_partial_digests] in *.
  unfold _review_partial_digests. rewrite bind_run.
  unfold objects_filter, execute. cbn [reliable PartialDigest_objects rows
    _postponed_partial_digests].
  set (todo := filter _ rs).
  assert (∀ pd, pd ∈ todo ↔ pd ∈ rs ∧ user pd = user_pk u) as Htodo.
  { intros pd. unfold todo. rewrite list_elem_of_filter. unfold matches.
    rewrite andb_true_r, bool_decide_eq_true. tauto. }
  rewrite review_loop_run.
  - do 3 f_equal. apply omap_pointwise. intros r Hr. unfold review_at, reviewed.
    apply (f_equal (λ b : bool, if b then _ else _)), bool_decide_ext.
    rewrite list_elem_of_fmap. split.
    + intros (pd & Hpk & [Hpd Hu]%Htodo).
      by rewrite (same_pk_same_row rs r pd Hnd Hr Hpd Hpk).
    + intros Hu. exists r. split; [done|]. by apply Htodo.
  - apply (sublist_NoDup _ (pk <$> rs)); [done|]. apply fmap_sublist, sublist_filter.
  - intros pd r [Hpd _]%Htodo Hr Hpk. by apply (same_pk_same_row rs).
Qed.

Lemma reviewed_fields cfg u pd pd' :
  reviewed cfg u pd = Some pd' →
  pk pd' = pk pd ∧ user pd' = user pd ∧ login pd' = login pd ∧
  partial_digest pd' = partial_digest pd.
Proof.
  unfold reviewed. case_bool_decide; [|by intros [= <-]].
  intros (? & ? & ? & ? & _)%reviewed_flag_fields. done.
Qed.

(** X12. [_review_partial_digests] only flips flags and deletes rows.  On a table
    with unique primary keys it returns; every row left is a row that was
    there, with its primary key, user, login and digest; the rows of other
    users, the key counter and the staging dictionary are as before. *)
Theorem review_only_flips_and_deletes cfg u s :
  NoDup (pk <$> table_rows s) →
  ∃ s', _review_partial_digests cfg u reliable s = Returned tt s' ∧
        (∀ pd', pd' ∈ table_rows s' →
           ∃ pd, pd ∈ table_rows s ∧ pk pd' = pk pd ∧ user pd' = user pd ∧
                 login pd' = login pd ∧ partial_digest pd' = partial_digest pd) ∧
        (∀ v, user_pk v ≠ user_pk u → rows_of v s' = rows_of v s) ∧
        next_pk (PartialDigest_objects s') = next_pk (PartialDigest_objects s) ∧
        _postponed_partial_digests s' = _postponed_partial_digests s.
Proof.
  intros Hnd. rewrite review_run by done. eexists. split; [done|]. split_and!; [| |done..].
  - intros pd'. unfold table_rows at 1. cbn [PartialDigest_objects rows].
    intros (pd & Hpd & Hfate)%list_elem_of_omap. exists pd. split; [done|].
    by apply reviewed_fields in Hfate.
  - intros v Hv. unfold rows_of, table_rows at 1. cbn [PartialDigest_objects rows].
    clear Hnd. induction (table_rows s) as [|r rs IH]; [done|]. cbn [omap list_omap].
    unfold reviewed at 1. case_bool_decide as Hu.
    + rewrite (filter_cons_False _ r) by congruence.
      destruct (reviewed_flag _ _ r) as [r'|] eqn:Ef; [|exact IH].
      apply reviewed_flag_fields in Ef as (_ & Hur & _).
      rewrite filter_cons_False by congruence. exact IH.
    + rewrite !filter_cons. destruct (decide (user r = user_pk v)); by rewrite IH.
Qed.

Lemma review_flags cfg u s :
  NoDup (pk <$> table_rows s) →
  ∃ s', _review_partial_digests cfg u reliable s = Returned tt s' ∧
        (∀ pd', pd' ∈ rows_of u s' →
           login pd' ∈ _confirmed_logins cfg u ∪ _unconfirmed_logins cfg u ∧
           (confirmed pd' = true ↔ login pd' ∈ _confirmed_logins cfg u)) ∧
        (∀ pd, pd ∈ rows_of u s →
           login pd ∈ _confirmed_logins cfg u ∪ _unconfirmed_logins cfg u →
           ∃ pd', pd' ∈ rows_of u s' ∧ pk pd' = pk pd ∧ login pd' = login pd ∧
                  partial_digest pd' = partial_digest pd).
Proof.
  intros Hnd. rewrite review_run by done. eexists. split; [done|]. split.
  - intros pd' [Hin Hu]%elem_of_rows_of. unfold table_rows in Hin.
    cbn [PartialDigest_objects rows] in Hin.
    apply list_elem_of_omap in Hin as (pd & Hpd & Hfate).
    unfold reviewed in Hfate. case_bool_decide as Hupd.
    + apply reviewed_flag_fields in Hfate as (_ & _ & Hl & _ & Hen & Hc).
      by rewrite Hl.
    + injection Hfate as <-. done.
  - intros pd [Hin Hu]%elem_of_rows_of Hen.
    destruct (reviewed cfg u pd) as [pd'|] eqn:Hfate.
    + exists pd'. destruct (reviewed_fields _ _ _ _ Hfate) as (? & Hu' & ? & ?).
      split; [|done]. apply elem_of_rows_of. split; [|congruence].
      unfold table_rows. cbn [PartialDigest_objects rows].
      apply list_elem_of_omap. by exists pd.
    + exfalso. unfold reviewed, reviewed_flag in Hfate.
      rewrite bool_decide_eq_true_2 in Hfate by done.
      apply elem_of_union in Hen as [Hen|Hen].
      * by rewrite bool_decide_eq_true_2 in Hfate.
      * destruct (bool_decide (login pd ∈ _confirmed_logins cfg u)); [done|].
        by rewrite bool_decide_eq_true_2 in Hfate.
Qed.

(** X13. After [_review_partial_digests] every row of the user has a login the
    enumerator reports, and is flagged confirmed exactly when the login is in
    the confirmed set; and a row whose login the enumerator reports is still
    there, under the same primary key. *)
Theorem review_aligns_flags cfg u s :
  NoDup (pk <$> table_rows s) →
  ∃ s', _review_partial_digests cfg u reliable s = Returned tt s' ∧
        (∀ pd', pd' ∈ rows_of u s' →
           login pd' ∈ _confirmed_logins cfg u ∪ _unconfirmed_logins cfg u ∧
           (confirmed pd' = true ↔ login pd' ∈ _confirmed_logins cfg u)) ∧
        (∀ pd, pd ∈ rows_of u s →
           login pd ∈ _confirmed_logins cfg u ∪ _unconfirmed_logins cfg u →
           ∃ pd', pd' ∈ rows_of u s' ∧ pk pd' = pk pd ∧ login pd' = login pd ∧
                  partial_digest pd' = partial_digest pd).
Proof. apply review_flags. Qed.

(** X14. A second [_review_partial_digests] right after the first changes nothing. *)
Theorem review_idempotent cfg u s :
  NoDup (pk <$> table_rows s) →
  ∃ s', _review_partial_digests cfg u reliable s = Returned tt s' ∧
        _review_partial_digests cfg u reliable s' = Returned tt s'.
Proof.
  intros Hnd. rewrite review_run by done. eexists. split; [done|].
  rewrite review_run.
  - unfold table_rows. cbn [PartialDigest_objects rows next_pk _postponed_partial_digests].
    do 3 f_equal. rewrite omap_twice. apply omap_pointwise. intros r _.
    destruct (reviewed cfg u r) as [r'|] eqn:Hfate; [|done]. cbn.
    destruct (reviewed_fields _ _ _ _ Hfate) as (_ & Hu & _).
    unfold reviewed in *. rewrite Hu. case_bool_decide; [|by injection Hfate as <-].
    by apply reviewed_flag_again in Hfate.
  - unfold table_rows at 1. cbn [PartialDigest_objects rows].
    apply (sublist_NoDup _ (pk <$> table_rows s)); [done|].
    clear Hnd. induction (table_rows s) as [|r rs IH]; [done|]. cbn.
    destruct (reviewed cfg u r) as [r'|] eqn:Hfate.
    + rewrite fmap_cons. destruct (reviewed_fields _ _ _ _ Hfate) as (-> & _).
      by apply sublist_skip.
    + by apply sublist_cons.
Qed.

(** X15. When the enumerator's two sets are disjoint and every login it reports
    has a row of the user, [_review_partial_digests] alone brings the table
    in sync, without the raw password: an [_after_authenticate] right after it
    finds nothing to do. *)
Theorem review_brings_in_sync cfg u raw s :
  NoDup (pk <$> table_rows s) →
  _confirmed_logins cfg u ## _unconfirmed_logins cfg u →
  (∀ l, l ∈ _confirmed_logins cfg u ∪ _unconfirmed_logins cfg u →
        ∃ pd, pd ∈ rows_of u s ∧ login pd = l) →
  ∃ s', _review_partial_digests cfg u reliable s = Returned tt s' ∧
        in_sync cfg u s' ∧
        _after_authenticate calculate_partial_digest cfg u raw reliable s' = Returned tt s'.
Proof.
  intros Hnd Hdisj Hcover.
  destruct (review_flags cfg u s Hnd) as (s' & Hrun & Hflags & Hkept).
  exists s'. split; [done|].
  assert (in_sync cfg u s') as Hsync.
  { split; apply set_eq; intros l; rewrite elem_of_db_logins; split.
    - intros (pd & Hin & Hu & Hc & <-).
      apply (Hflags pd); [by apply elem_of_rows_of|done].
    - intros Hl. destruct (Hcover l) as (pd & Hpd & <-); [apply elem_of_union; by left|].
      destruct (Hkept pd Hpd) as (pd' & Hpd' & _ & Hl' & _); [apply elem_of_union; by left|].
      exists pd'. apply elem_of_rows_of in Hpd' as Hin. destruct Hin as [Hin Hu].
      split_and!; [done..| |done].
      apply (Hflags pd' Hpd'). by rewrite Hl'.
    - intros (pd & Hin & Hu & Hc & <-).
      destruct (Hflags pd) as [Hen Hiff]; [by apply elem_of_rows_of|].
      apply elem_of_union in Hen as [Hen|Hen]; [|done].
      apply Hiff in Hen. congruence.
    - intros Hl. destruct (Hcover l) as (pd & Hpd & <-); [apply elem_of_union; by right|].
      destruct (Hkept pd Hpd) as (pd' & Hpd' & _ & Hl' & _); [apply elem_of_union; by right|].
      exists pd'. apply elem_of_rows_of in Hpd' as Hin. destruct Hin as [Hin Hu].
      split_and!; [done..| |done].
      destruct (confirmed pd') eqn:Ec; [|done].
      apply (Hflags pd' Hpd') in Ec. rewrite Hl' in Ec.
      destruct (proj1 (elem_of_disjoint _ _) Hdisj _ Ec Hl). }
  split; [done|]. by apply reconcile_in_sync.
Qed.

End reviewing.

Section patched.

Variable calculate_partial_digest : string → string → string → string.
Context {Manager Extra ModelBackend Request : Type}.
Variable _old_set_password : User → option string → M User.
Variable _old_check_password : User → option string → M (bool * User).
Variable _old_create_user :
  Manager → string → option string → option string → Extra → M User.
Variable _old_authenticate :
  ModelBackend → Request → option string → option string → M (option User).

(** *** The patched methods *)

Lemma login_flags_replaced cfg u raw t cache :
  login_flags u (mkState (replaced (user_pk u) (staged_for calculate_partial_digest cfg u raw) t)
                         cache) =
  set_map (λ l, (l, true)) (_confirmed_logins cfg u) ∪
  set_map (λ l, (l, false)) (_unconfirmed_logins cfg u).
Proof.
  apply set_eq; intros [l c].
  rewrite elem_of_login_flags, elem_of_union, !elem_of_map. split.
  - intros (pd & Hin & Hu & <- & <-).
    destruct (replaced_rows_of _ _ _ _ _ _ _ Hin Hu) as (_ & Hl & _).
    unfold enumerated in Hl. destruct (confirmed pd); [left|right]; by eexists.
  - intros Hl.
    assert (l ∈ enumerated cfg u c) as Hen.
    { unfold enumerated. by destruct Hl as [(x & [= -> ->] & ?)|(x & [= -> ->] & ?)]. }
    destruct (replaced_has_row calculate_partial_digest cfg u raw t cache l c Hen)
      as (pd & ? & ? & ? & ? & _).
    by exists pd.
Qed.

Lemma flushed_is_freshly_synchronised cfg u raw db s s' :
  (_prepare_partial_digests calculate_partial_digest cfg u (Some raw) ;;
   _persist_partial_digests u) db s = Returned tt s' →
  freshly_synchronised calculate_partial_digest cfg u raw s'.
Proof.
  intros ->%stage_then_persist_returned.
  split; [apply login_flags_replaced|]. split.
  - intros pd [Hpd Hu]%elem_of_rows_of.
    by destruct (replaced_rows_of _ _ _ _ _ _ _ Hpd Hu) as (? & _).
  - cbn. apply lookup_delete_eq.
Qed.

(** X11. When [_after_authenticate] finds the table out of sync and returns, it
    has recomputed everything from the password just used: the user is
    freshly synchronised, so every row of the user, old login or new, holds
    the digest of that password. *)
Theorem reconcile_out_of_sync_recomputes cfg u raw db s s' :
  ¬ in_sync cfg u s →
  _after_authenticate calculate_partial_digest cfg u (Some raw) db s = Returned tt s' →
  freshly_synchronised calculate_partial_digest cfg u raw s'.
Proof.
  intros Hns Hrun%reconcile_as_reliable.
  rewrite reconcile_out_of_sync in Hrun by done.
  by apply (flushed_is_freshly_synchronised cfg u raw reliable s).
Qed.

(** X16. A password set through the patched [set_password] and a user save right
    after it (the post-save handler) leave the user freshly synchronised for
    the new password: whatever Django's own [set_password] did, the rows
    mirror the enumerator and hold the digests of the new password. *)
Theorem set_password_then_save_synchronises cfg u raw db s u' s1 s2 :
  _new_set_password calculate_partial_digest _old_set_password cfg u (Some raw) db s
    = Returned u' s1 →
  _post_save_persist_partial_digests (Some u') db s1 = Returned tt s2 →
  freshly_synchronised calculate_partial_digest cfg u' raw s2.
Proof.
  unfold _new_set_password, _post_save_persist_partial_digests. rewrite bind_run.
  destruct (_old_set_password u (Some raw) db s) as [u0 s0|e s0]; [|done].
  rewrite bind_run, prepare_some. intros [= <- <-] Hflush.
  apply (flushed_is_freshly_synchronised cfg u0 raw db s0).
  by rewrite bind_run, prepare_some.
Qed.

(** X17. Setting no password ([None], an unusable password) stages nothing.  If
    nothing is staged under the hash Django's [set_password] gave the user,
    the save that follows changes nothing either: the partial digests of the
    previous password stay in the table. *)
Theorem unusable_password_keeps_old_digests cfg u db s u' s1 :
  _old_set_password u None db s = Returned u' s1 →
  _postponed_partial_digests s1 !! password u' = None →
  (u'' ← _new_set_password calculate_partial_digest _old_set_password cfg u None ;
   _post_save_persist_partial_digests (Some u'')) db s = Returned tt s1.
Proof.
  intros Hold Hnone. rewrite bind_run. unfold _new_set_password.
  rewrite bind_run, Hold. cbn [_prepare_partial_digests].
  rewrite bind_run. cbn [mret M_ret _post_save_persist_partial_digests].
  by apply persist_absent.
Qed.

(** X18. When the patched [_create_user] returns a user created with a password,
    that user is freshly synchronised, whatever Django's own [_create_user]
    did to the table and the staging dictionary on the way. *)
Theorem create_user_synchronises cfg self username email raw extra db s u s' :
  _new_create_user calculate_partial_digest _old_create_user cfg self username email
                   (Some raw) extra db s = Returned u s' →
  freshly_synchronised calculate_partial_digest cfg u raw s'.
Proof.
  unfold _new_create_user. rewrite bind_run.
  destruct (_old_create_user self username email (Some raw) extra db s) as [u0 s0|e s0];
    [|done].
  rewrite bind_run, prepare_some, bind_run.
  destruct (_persist_partial_digests u0 db _) as [[] s2|e s2] eqn:Hflush; [|done].
  intros [= <- <-].
  apply (flushed_is_freshly_synchronised cfg u0 raw db s0).
  by rewrite bind_run, prepare_some.
Qed.

(** X19. Whenever the patched [check_password] answers [True] for a password, the
    table is in sync with the enumerator for that user afterwards. *)
Theorem check_password_true_in_sync cfg u raw db s u' s' :
  _new_check_password calculate_partial_digest _old_check_password cfg u (Some raw) db s
    = Returned (true, u') s' →
  in_sync cfg u' s'.
Proof.
  unfold _new_check_password. rewrite bind_run.
  destruct (_old_check_password u (Some raw) db s) as [[result u0] s0|e s0]; [|done].
  destruct result; [|done]. rewrite bind_run.
  destruct (_after_authenticate _ cfg u0 (Some raw) db s0) as [[] s2|e s2] eqn:Hrec; [|done].
  intros [= <- <-]. by eapply reconcile_returned_in_sync.
Qed.

(** X20. Whenever the patched [authenticate] returns a user for a password, the
    table is in sync with the enumerator for that user afterwards. *)
Theorem authenticate_user_in_sync cfg backend request username raw db s u s' :
  _new_authenticate calculate_partial_digest _old_authenticate cfg backend request
                    username (Some raw) db s = Returned (Some u) s' →
  in_sync cfg u s'.
Proof.
  unfold _new_authenticate. rewrite bind_run.
  destruct (_old_authenticate backend request username (Some raw) db s)
    as [[u0|] s0|e s0]; [|done..].
  rewrite bind_run.
  destruct (_after_authenticate _ cfg u0 (Some raw) db s0) as [[] s2|e s2] eqn:Hrec; [|done].
  intros [= <- <-]. by eapply reconcile_returned_in_sync.
Qed.

(** X21. A failed check or authentication never reconciles: the patched methods
    answer [False] (or [None]) exactly when Django's own methods do, and in
    exactly the state those left. *)
Theorem failed_authentication_passes_through cfg u backend request username raw db s :
  (∀ u' s', _new_check_password calculate_partial_digest _old_check_password cfg u raw db s
              = Returned (false, u') s' ↔
            _old_check_password u raw db s = Returned (false, u') s') ∧
  (∀ s', _new_authenticate calculate_partial_digest _old_authenticate cfg backend request
                           username raw db s = Returned None s' ↔
         _old_authenticate backend request username raw db s = Returned None s').
Proof.
  split.
  - intros u' s'. unfold _new_check_password. rewrite bind_run.
    destruct (_old_check_password u raw db s) as [[[|] u0] s0|e s0]; [|done..].
    rewrite bind_run. by destruct (_after_authenticate _ cfg u0 raw db s0).
  - intros s'. unfold _new_authenticate. rewrite bind_run.
    destruct (_old_authenticate backend request username raw db s)
      as [[u0|] s0|e s0]; [|done..].
    rewrite bind_run. by destruct (_after_authenticate _ cfg u0 raw db s0).
Qed.

End patched.

(** ** Instances of the further properties *)

Lemma other_users_rows_untouched_witness :
  rows_of bob (final (perform sample_digest (Reconcile al_confirmed alice (Some "secret"))
                              reliable with_bob)) = rows_of bob with_bob.
Proof.
  apply (other_users_rows_untouched sample_digest
           (Reconcile al_confirmed alice (Some "secret")) bob reliable with_bob).
  discriminate.
Defined.

Lemma other_staged_entries_untouched_witness :
  _postponed_partial_digests
    (final (perform sample_digest (Reconcile name_and_email alice (Some "secret"))
                    reliable carol_pending)) !! password carol =
  _postponed_partial_digests carol_pending !! password carol.
Proof.
  apply (other_staged_entries_untouched sample_digest
           (Reconcile name_and_email alice (Some "secret")) (password carol) reliable
           carol_pending).
  discriminate.
Defined.

Lemma flushed_rows_hold_digests_witness :
  (∀ pd, pd ∈ rows_of alice
                (final ((_prepare_partial_digests sample_digest name_and_email alice
                           (Some "secret") ;;
                         _persist_partial_digests alice) enforces_max_length with_bob)) →
     partial_digest pd = sample_digest (login pd) "DJANGO" "secret") ∧
  length (rows_of alice
            (final ((_prepare_partial_digests sample_digest name_and_email alice
                       (Some "secret") ;;
                     _persist_partial_digests alice) enforces_max_length with_bob))) =
    (size (_confirmed_logins name_and_email alice) +
     size (_unconfirmed_logins name_and_email alice))%nat ∧
  _postponed_partial_digests
    (final ((_prepare_partial_digests sample_digest name_and_email alice (Some "secret") ;;
             _persist_partial_digests alice) enforces_max_length with_bob))
    !! password alice = None.
Proof.
  apply (flushed_rows_hold_digests sample_digest name_and_email alice "secret"
           enforces_max_length with_bob).
  vm_compute. reflexivity.
Defined.

Lemma later_staging_wins_witness :
  (_prepare_partial_digests sample_digest name_and_email alice (Some "secret") ;;
   _prepare_partial_digests sample_digest name_and_email bob (Some "hunter2") ;;
   _persist_partial_digests bob) reliable initial =
  (_prepare_partial_digests sample_digest name_and_email bob (Some "hunter2") ;;
   _persist_partial_digests bob) reliable initial.
Proof.
  apply (later_staging_wins sample_digest name_and_email name_and_email alice bob
           (Some "secret") "hunter2" reliable initial).
  reflexivity.
Defined.

Lemma persist_raises_only_database_error_witness :
  DatabaseError = DatabaseError ∧
  _postponed_partial_digests
    (final (_persist_partial_digests dave enforces_max_length dave_staged))
    = _postponed_partial_digests dave_staged ∧
  is_Some (_postponed_partial_digests dave_staged !! password dave).
Proof.
  apply (persist_raises_only_database_error dave enforces_max_length dave_staged
           DatabaseError
           (final (_persist_partial_digests dave enforces_max_length dave_staged))).
  vm_compute. reflexivity.
Defined.

Lemma failed_flush_can_be_retried_witness :
  ∃ staged s2,
    _postponed_partial_digests dave_staged !! password dave = Some staged ∧
    _persist_partial_digests dave reliable
      (final (_persist_partial_digests dave enforces_max_length dave_staged))
      = Returned tt s2 ∧
    row_tuple <$> rows_of dave s2 = staged ∧
    _postponed_partial_digests s2 !! password dave = None.
Proof.
  apply (failed_flush_can_be_retried dave enforces_max_length dave_staged DatabaseError).
  vm_compute. reflexivity.
Defined.

Lemma store_without_entry_deletes_rows_witness :
  ∃ s', _store_partial_digests alice reliable al_pending = Raised KeyError s' ∧
        rows_of alice s' = [] ∧
        _postponed_partial_digests s' = _postponed_partial_digests al_pending.
Proof.
  apply (store_without_entry_deletes_rows alice reliable al_pending); reflexivity.
Defined.

Lemma reconcile_in_sync_only_reads_witness :
  _after_authenticate sample_digest al_unconfirmed alice (Some "secret") read_only al_pending
  = Returned tt al_pending.
Proof.
  apply (reconcile_in_sync_only_reads sample_digest al_unconfirmed alice (Some "secret")
           read_only al_pending).
  - reflexivity.
  - reflexivity.
  - split; vm_compute; reflexivity.
Defined.

Lemma reconcile_without_password_changes_nothing_witness :
  final (_after_authenticate sample_digest al_confirmed alice None reliable al_pending)
  = al_pending.
Proof.
  apply (reconcile_without_password_changes_nothing sample_digest al_confirmed alice
           reliable al_pending).
  reflexivity.
Defined.

Lemma review_only_flips_and_deletes_witness :
  ∃ s', _review_partial_digests al_confirmed alice reliable al_pending = Returned tt s' ∧
        (∀ pd', pd' ∈ table_rows s' →
           ∃ pd, pd ∈ table_rows al_pending ∧ pk pd' = pk pd ∧ user pd' = user pd ∧
                 login pd' = login pd ∧ partial_digest pd' = partial_digest pd) ∧
        (∀ v, user_pk v ≠ user_pk alice → rows_of v s' = rows_of v al_pending) ∧
        next_pk (PartialDigest_objects s') = next_pk (PartialDigest_objects al_pending) ∧
        _postponed_partial_digests s' = _postponed_partial_digests al_pending.
Proof.
  apply (review_only_flips_and_deletes al_confirmed alice al_pending).
  apply NoDup_cons. split; [by intros ?%list_elem_of_singleton|]. apply NoDup_singleton.
Defined.

Lemma review_aligns_flags_witness :
  ∃ s', _review_partial_digests al_confirmed alice reliable al_pending = Returned tt s' ∧
        (∀ pd', pd' ∈ rows_of alice s' →
           login pd' ∈ _confirmed_logins al_confirmed alice ∪
                       _unconfirmed_logins al_confirmed alice ∧
           (confirmed pd' = true ↔ login pd' ∈ _confirmed_logins al_confirmed alice)) ∧
        (∀ pd, pd ∈ rows_of alice al_pending →
           login pd ∈ _confirmed_logins al_confirmed alice ∪
                      _unconfirmed_logins al_confirmed alice →
           ∃ pd', pd' ∈ rows_of alice s' ∧ pk pd' = pk pd ∧ login pd' = login pd ∧
                  partial_digest pd' = partial_digest pd).
Proof.
  apply (review_aligns_flags al_confirmed alice al_pending).
  apply NoDup_cons. split; [by intros ?%list_elem_of_singleton|]. apply NoDup_singleton.
Defined.

Lemma review_idempotent_witness :
  ∃ s', _review_partial_digests al_confirmed alice reliable al_pending = Returned tt s' ∧
        _review_partial_digests al_confirmed alice reliable s' = Returned tt s'.
Proof.
  apply (review_idempotent al_confirmed alice al_pending).
  apply NoDup_cons. split; [by intros ?%list_elem_of_singleton|]. apply NoDup_singleton.
Defined.

Lemma review_brings_in_sync_witness :
  ∃ s', _review_partial_digests al_confirmed alice reliable al_pending = Returned tt s' ∧
        in_sync al_confirmed alice s' ∧
        _after_authenticate sample_digest al_confirmed alice None reliable s' = Returned tt s'.
Proof.
  apply (review_brings_in_sync sample_digest al_confirmed alice None al_pending).
  - apply NoDup_cons. split; [by intros ?%list_elem_of_singleton|]. apply NoDup_singleton.
  - intros l _ Hl. exact (proj1 (elem_of_empty l) Hl).
  - intros l [Hl|Hl]%elem_of_union; [|destruct (proj1 (elem_of_empty l) Hl)].
    apply elem_of_list_to_set in Hl.
    apply elem_of_cons in Hl as [->|Hl]; [|apply list_elem_of_singleton in Hl as ->].
    + exists (mkPartialDigest 1 1 "alice" (sample_digest "alice" "DJANGO" "secret") true).
      split; [|reflexivity]. apply elem_of_rows_of. split; [left|reflexivity].
    + exists al_row. split; [|reflexivity].
      apply elem_of_rows_of. split; [right; left|reflexivity].
Defined.

Lemma set_password_then_save_synchronises_witness :
  freshly_synchronised sample_digest name_and_email
    (mkUser 1 "alice" "alice@x.com" "plain$secret") "secret"
    (final (_post_save_persist_partial_digests
              (Some (mkUser 1 "alice" "alice@x.com" "plain$secret")) reliable
              (final (_new_set_password sample_digest sample_set_password name_and_email
                        alice (Some "secret") reliable al_pending)))).
Proof.
  apply (set_password_then_save_synchronises sample_digest sample_set_password
           name_and_email alice "secret" reliable al_pending
           (mkUser 1 "alice" "alice@x.com" "plain$secret")
           (final (_new_set_password sample_digest sample_set_password name_and_email
                     alice (Some "secret") reliable al_pending))).
  - vm_compute. reflexivity.
  - vm_compute. reflexivity.
Defined.

Lemma unusable_password_keeps_old_digests_witness :
  (u'' ← _new_set_password sample_digest sample_set_password name_and_email alice None ;
   _post_save_persist_partial_digests (Some u'')) reliable al_pending
  = Returned tt al_pending.
Proof.
  apply (unusable_password_keeps_old_digests sample_digest sample_set_password
           name_and_email alice reliable al_pending
           (mkUser 1 "alice" "alice@x.com" "!unusable") al_pending).
  - reflexivity.
  - reflexivity.
Defined.

Lemma create_user_synchronises_witness :
  freshly_synchronised sample_digest name_and_email
    (mkUser 9 "frank" "frank@x.com" "plain$secret") "secret"
    (final (_new_create_user sample_digest sample_create_user name_and_email tt "frank"
              (Some "frank@x.com") (Some "secret") tt reliable with_bob)).
Proof.
  apply (create_user_synchronises sample_digest sample_create_user name_and_email tt
           "frank" (Some "frank@x.com") "secret" tt reliable with_bob).
  vm_compute. reflexivity.
Defined.

Lemma check_password_true_in_sync_witness :
  in_sync name_and_email erin
    (final (_new_check_password sample_digest sample_check_password name_and_email erin
              (Some "secret") reliable with_bob)).
Proof.
  apply (check_password_true_in_sync sample_digest sample_check_password name_and_email
           erin "secret" reliable with_bob).
  vm_compute. reflexivity.
Defined.

Lemma authenticate_user_in_sync_witness :
  in_sync al_confirmed alice
    (final (_new_authenticate sample_digest sample_authenticate al_confirmed tt tt
              (Some "alice") (Some "secret") reliable al_pending)).
Proof.
  apply (authenticate_user_in_sync sample_digest sample_authenticate al_confirmed tt tt
           (Some "alice") "secret" reliable al_pending).
  vm_compute. reflexivity.
Defined.

Lemma reconcile_out_of_sync_recomputes_witness :
  freshly_synchronised sample_digest al_confirmed alice "secret"
    (final (_after_authenticate sample_digest al_confirmed alice (Some "secret")
              reliable al_pending)).
Proof.
  apply (reconcile_out_of_sync_recomputes sample_digest al_confirmed alice "secret"
           reliable al_pending).
  - intros [Hc _]. vm_compute in Hc. discriminate Hc.
  - vm_compute. reflexivity.
Defined.

(** C6, instances of the theorem.  carol's hash differs from alice's: the
    flush for alice persists the tuple staged under alice's hash, with or
    without the staging for carol.  bob's hash is alice's: the flush for alice
    persists the tuples staged for bob. *)
Lemma staged_entries_collide_on_equal_hash_witness :
  (∃ s1 s2,
     _persist_partial_digests alice reliable alice_staged = Returned tt s1 ∧
     (_prepare_partial_digests sample_digest name_and_email carol (Some "hunter2") ;;
      _persist_partial_digests alice) reliable alice_staged = Returned tt s2 ∧
     PartialDigest_objects s2 = PartialDigest_objects s1 ∧
     _postponed_partial_digests s2 =
       <[password carol := staged_for sample_digest name_and_email carol "hunter2"]>
         (_postponed_partial_digests s1)) ∧
  (∃ s2,
     (_prepare_partial_digests sample_digest name_and_email bob (Some "hunter2") ;;
      _persist_partial_digests alice) reliable with_bob = Returned tt s2 ∧
     row_tuple <$> rows_of alice s2 = staged_for sample_digest name_and_email bob "hunter2" ∧
     (∀ pd, pd ∈ rows_of alice s2 → next_pk (PartialDigest_objects with_bob) ≤ pk pd) ∧
     _postponed_partial_digests s2 !! password bob = None).
Proof.
  split.
  - apply (proj1 (staged_entries_collide_on_equal_hash sample_digest name_and_email
                    alice carol "hunter2")).
    discriminate.
  - apply (proj1 (proj2 (staged_entries_collide_on_equal_hash sample_digest name_and_email
                           alice bob "hunter2"))).
    reflexivity.
Defined.
